(** * Schema synchronisation and mapping subsystem (src/shared/schemas.ts)

    A shallow embedding of [SchemaService], [JsonSchemaHandler],
    [updateSchemaFromRemote] and [getDefaultSchemas], with the properties
    of the ownership table, the update queue, the drain loop and the
    schema cache proved about the embedding. *)

From stdpp Require Import gmap strings list fin_maps sorting.

Set Default Proof Using "Type".

(** ** JavaScript values used by the module *)

(** A [vscode.Uri] is an object.  A JavaScript [Map] compares object keys by
    identity, so the embedding gives every Uri the identity [uri_id] of the
    object besides the two renderings the module reads ([fsPath] and
    [toString()]). *)
Record Uri := mkUri {
  uri_id : positive;
  uri_fsPath : string;
  uri_toString : string
}.

(** [export type Schemas = { [key: string]: vscode.Uri }].  Keys are taken
    among the own properties of the object. *)
Abbreviation Schemas := (gmap string Uri).

(** [export type SchemaType = 'yaml' | 'json'] *)
Inductive SchemaType := yaml | json.

Definition SchemaType_name (t : SchemaType) : string :=
  match t with yaml => "yaml" | json => "json" end.

(** [schema?: string | vscode.Uri] *)
Inductive SchemaRef :=
  | SchemaName (name : string)
  | SchemaLocation (u : Uri).

(** [export interface SchemaMapping] *)
Record SchemaMapping := mkMapping {
  uri : Uri;
  type : SchemaType;
  owner : option string;
  schema : option SchemaRef
}.

(** Truthiness of a string: every string but the empty one. *)
Definition truthy (s : string) : bool :=
  match s with EmptyString => false | String _ _ => true end.

(** Truthiness of [string | undefined]. *)
Definition truthy_opt (o : option string) : bool :=
  match o with Some s => truthy s | None => false end.

(** Truthiness of [mapping.schema]: an object is truthy, a string is truthy
    unless empty, [undefined] is falsy. *)
Definition schema_truthy (o : option SchemaRef) : bool :=
  match o with
  | Some (SchemaName s) => truthy s
  | Some (SchemaLocation _) => true
  | None => false
  end.

(** [a === b] on [string | vscode.Uri | undefined]: strings by value,
    objects by identity. *)
Definition schema_strict_eq (a b : option SchemaRef) : bool :=
  match a, b with
  | None, None => true
  | Some (SchemaName x), Some (SchemaName y) => bool_decide (x = y)
  | Some (SchemaLocation u), Some (SchemaLocation v) =>
      bool_decide (uri_id u = uri_id v)
  | _, _ => false
  end.

(** [a === b] on [string | undefined]. *)
Definition owner_strict_eq (a b : option string) : bool := bool_decide (a = b).

(** [x !== undefined] *)
Definition defined {A} (o : option A) : bool :=
  match o with Some _ => true | None => false end.

(** [schema?.toString() ?? '[removed]'] *)
Definition schema_text (o : option SchemaRef) : string :=
  match o with
  | Some (SchemaName s) => s
  | Some (SchemaLocation u) => uri_toString u
  | None => "[removed]"
  end.

(** How an (awaited) call ends: it returns, or it throws an [Error] whose
    message is kept. *)
Inductive Completion :=
  | Returned
  | Threw (message : string).

(** One line of the service's debug log,
    ['schema service: handle %s mapping: %s -> %s']. *)
Record LogLine := mkLogLine {
  log_type : SchemaType;
  log_schema : string;
  log_uri : Uri
}.

Definition handle_line (m : SchemaMapping) : LogLine :=
  mkLogLine (type m) (schema_text (schema m)) (uri m).

(** State of the timer object returned by [clock.setTimeout]: a timeout is
    pending until it fires, and stays fired until [refresh()] re-arms it. *)
Inductive TimerState := Pending | Fired.

(** ** SchemaService *)

Section SchemaService.

(** The backing stores the handlers write to. *)
Context {Store : Type}.

(** [export interface SchemaHandler]: [handleUpdate] as a function of the
    backing store; an awaited call returns or throws. *)
Record SchemaHandler := mkHandler {
  handleUpdate : SchemaMapping → Schemas → Store → Store * Completion
}.

(** The fields of [class SchemaService]. [owned] is a [Map] keyed by Uri
    objects, hence by [uri_id]. *)
Record SchemaService := mkService {
  updatePeriod : nat;
  timer : option TimerState;
  updateQueue : list SchemaMapping;
  schemas : option Schemas;
  handlers : SchemaType → option SchemaHandler;
  owned : gmap positive SchemaMapping
}.

(** The service together with what it acts upon: the handlers' backing
    stores and the debug log. *)
Record World := mkWorld {
  svc : SchemaService;
  store : Store;
  log : list LogLine
}.

Definition set_queue (q : list SchemaMapping) (s : SchemaService) :=
  mkService (updatePeriod s) (timer s) q (schemas s) (handlers s) (owned s).
Definition set_owned (o : gmap positive SchemaMapping) (s : SchemaService) :=
  mkService (updatePeriod s) (timer s) (updateQueue s) (schemas s) (handlers s) o.
Definition set_schemas (t : option Schemas) (s : SchemaService) :=
  mkService (updatePeriod s) (timer s) (updateQueue s) t (handlers s) (owned s).
Definition set_timer (t : option TimerState) (s : SchemaService) :=
  mkService (updatePeriod s) t (updateQueue s) (schemas s) (handlers s) (owned s).

Definition set_svc (s : SchemaService) (w : World) := mkWorld s (store w) (log w).
Definition set_store (st : Store) (w : World) := mkWorld (svc w) st (log w).
Definition add_log (l : LogLine) (w : World) := mkWorld (svc w) (store w) (log w ++ [l]).

(** [DEFAULT_UPDATE_PERIOD_MILLIS] *)
Definition DEFAULT_UPDATE_PERIOD_MILLIS : nat := 1000.

(** The constructor: [opts.handlers] is taken as given (the default map of
    the source binds both types); queue and ownership table start empty. *)
Definition new_SchemaService (opt_schemas : option Schemas) (opt_period : option nat)
    (hs : SchemaType → option SchemaHandler) : SchemaService :=
  mkService (default DEFAULT_UPDATE_PERIOD_MILLIS opt_period) None [] opt_schemas hs ∅.

(** *** registerMapping *)

(** [this.owned.get(mapping.uri)] *)
Definition owned_get (s : SchemaService) (m : SchemaMapping) : option SchemaMapping :=
  owned s !! uri_id (uri m).

(** [!this.owned.has(mapping.uri) && mapping.owner !== undefined &&
    mapping.schema !== undefined] *)
Definition isOwnerUndefined (s : SchemaService) (m : SchemaMapping) : bool :=
  negb (defined (owned_get s m)) && defined (owner m) && defined (schema m).

(** [this.owned.has(mapping.uri) && mapping.owner !== undefined &&
    this.owned.get(mapping.uri)?.schema !== mapping.schema] *)
Definition isSchemaChanged (s : SchemaService) (m : SchemaMapping) : bool :=
  defined (owned_get s m) && defined (owner m)
  && negb (schema_strict_eq (owned_get s m ≫= schema) (schema m)).

(** [if (isOwnerUndefined || isSchemaChanged) this.owned.set(mapping.uri, mapping)] *)
Definition claim (m : SchemaMapping) (s : SchemaService) : SchemaService :=
  if isOwnerUndefined s m || isSchemaChanged s m
  then set_owned (<[uri_id (uri m) := m]> (owned s)) s
  else s.

(** [mapping.owner === this.owned.get(mapping.uri)?.owner] *)
Definition ownerMatches (s : SchemaService) (m : SchemaMapping) : bool :=
  owner_strict_eq (owner m) (owned_get s m ≫= owner).

(** *** processUpdates *)

Definition no_handler_message (t : SchemaType) : string :=
  "no registered handler for type " +:+ SchemaType_name t.

(** The body of the [for] loop for one mapping of the batch: look the
    handler up, throw when there is none, log, and await the handler. *)
Definition dispatch (tbl : Schemas) (m : SchemaMapping) (w : World) : World * Completion :=
  match handlers (svc w) (type m) with
  | None => (w, Threw (no_handler_message (type m)))
  | Some h =>
      let w1 := add_log (handle_line m) w in
      let r := handleUpdate h m tbl (store w1) in
      (set_store r.1 w1, r.2)
  end.

(** [for (const mapping of batch) { ... }], every [await] resumed at once. *)
Fixpoint drain (tbl : Schemas) (batch : list SchemaMapping) (w : World) : World * Completion :=
  match batch with
  | [] => (w, Returned)
  | m :: rest =>
      match dispatch tbl m w with
      | (w1, Returned) => drain tbl rest w1
      | (w1, Threw e) => (w1, Threw e)
      end
  end.

(** [processUpdates()], run to completion without other code interleaved
    at its [await]s.  [this.schemas] is assigned once (in [start]) and never
    unset, so the table read by the guard is the one the loop passes on. *)
Definition processUpdates (w : World) : World * Completion :=
  match updateQueue (svc w), schemas (svc w) with
  | [], _ => (w, Returned)
  | _ :: _, None => (w, Returned)
  | batch, Some tbl => drain tbl batch (set_svc (set_queue [] (svc w)) w)
  end.

(** The synchronous part of [registerMapping(mapping, flush?)], up to and
    including [this.updateQueue.push(mapping)]; the flag tells whether the
    mapping was pushed. *)
Definition enqueue (m : SchemaMapping) (w : World) : World * bool :=
  let s1 := claim m (svc w) in
  if ownerMatches s1 m
  then (set_svc (set_queue (updateQueue s1 ++ [m]) s1) w, true)
  else (set_svc s1 w, false).

(** [registerMapping(mapping, flush?)].  The call [this.processUpdates()]
    of a flush is not awaited: what it throws is nobody's to catch.  Here
    the flushed drain runs to completion; [step] below lets it interleave. *)
Definition registerMapping (m : SchemaMapping) (flush : option bool) (w : World) : World :=
  let r := enqueue m w in
  if r.2 && bool_decide (flush = Some true) then (processUpdates r.1).1 else r.1.

(** *** The event loop

    [processUpdates] is [async]: it runs up to the [await] of a handler
    call and is resumed later, and meanwhile the event loop runs other
    callbacks.  A handler call is taken as one step. *)

(** Who awaits a [processUpdates] call: the timer callback, which
    refreshes the timer once the call has returned, or some other caller
    (a flush, a direct call). *)
Inductive Caller := ByTimer | ByOther.

(** A [processUpdates] call suspended at the [await] of its loop: the
    table its guard saw (a start() assigns [this.schemas] once) and the part
    of its batch that is still to be dispatched. *)
Record Drain := mkDrain {
  caller : Caller;
  table : Schemas;
  rest : list SchemaMapping
}.

(** The service in its event loop: the suspended drains, the messages of
    the errors that drains have thrown, and the number of timeouts of
    earlier [start()] calls that are still pending in the clock:
    [startTimer] overwrites [this.timer] and does not clear the timeout it
    referred to. *)
Record Machine := mkMachine {
  world : World;
  inflight : list Drain;
  rejected : list string;
  stale : nat
}.

Definition set_world (w : World) (M : Machine) :=
  mkMachine w (inflight M) (rejected M) (stale M).
Definition set_inflight (ds : list Drain) (M : Machine) :=
  mkMachine (world M) ds (rejected M) (stale M).

(** [this.timer?.refresh()] *)
Definition refresh (s : SchemaService) : SchemaService :=
  match timer s with
  | Some _ => set_timer (Some Pending) s
  | None => s
  end.

(** What follows the end of a [processUpdates] call.  In the timer
    callback, [await this.processUpdates(); this.timer?.refresh()]: the
    refresh is reached only when the call returned. *)
Definition settle (c : Caller) (r : Completion) (M : Machine) : Machine :=
  match r with
  | Returned =>
      match c with
      | ByTimer => set_world (set_svc (refresh (svc (world M))) (world M)) M
      | ByOther => M
      end
  | Threw e => mkMachine (world M) (inflight M) (rejected M ++ [e]) (stale M)
  end.

(** The loop of [processUpdates] from the mapping it has reached up to its
    next [await] (the drain is suspended again) or to its end. *)
Definition advance (c : Caller) (tbl : Schemas) (batch : list SchemaMapping)
    (M : Machine) : Machine :=
  match batch with
  | [] => settle c Returned M
  | m :: todo =>
      match dispatch tbl m (world M) with
      | (w1, Returned) =>
          mkMachine w1 (inflight M ++ [mkDrain c tbl todo]) (rejected M) (stale M)
      | (w1, Threw e) => settle c (Threw e) (set_world w1 M)
      end
  end.

(** A call of [processUpdates()] up to its first [await]. *)
Definition call_processUpdates (c : Caller) (M : Machine) : Machine :=
  match updateQueue (svc (world M)), schemas (svc (world M)) with
  | [], _ => settle c Returned M
  | _ :: _, None => settle c Returned M
  | batch, Some tbl =>
      advance c tbl batch (set_world (set_svc (set_queue [] (svc (world M))) (world M)) M)
  end.

Inductive Event :=
  | Start                                             (* start() *)
  | SchemasResolved (tbl : Schemas)                   (* the promise of getDefaultSchemas *)
  | Register (m : SchemaMapping) (flush : option bool) (* registerMapping *)
  | ProcessUpdates                                    (* a direct call of processUpdates *)
  | TimerFires                                        (* the timeout of this.timer expires *)
  | Resume (i : nat)                                  (* the await of the i-th suspended drain *)
  | StaleTimerFires.                                  (* a timeout of an earlier start() expires *)

Definition step (e : Event) (M : Machine) : Machine :=
  let w := world M in
  match e with
  | Start =>
      (* [this.timer = globals.clock.setTimeout(...)]: a new timeout, pending;
         the one [this.timer] referred to stays in the clock if it was pending *)
      let left_pending := match timer (svc w) with Some Pending => 1 | _ => 0 end in
      mkMachine (set_svc (set_timer (Some Pending) (svc w)) w) (inflight M) (rejected M)
        (stale M + left_pending)
  | SchemasResolved tbl => set_world (set_svc (set_schemas (Some tbl) (svc w)) w) M
  | Register m flush =>
      let r := enqueue m w in
      if r.2 && bool_decide (flush = Some true)
      then call_processUpdates ByOther (set_world r.1 M)
      else set_world r.1 M
  | ProcessUpdates => call_processUpdates ByOther M
  | TimerFires =>
      match timer (svc w) with
      | Some Pending =>
          call_processUpdates ByTimer (set_world (set_svc (set_timer (Some Fired) (svc w)) w) M)
      | _ => M
      end
  | Resume i =>
      match inflight M !! i with
      | Some d => advance (caller d) (table d) (rest d) (set_inflight (delete i (inflight M)) M)
      | None => M
      end
  | StaleTimerFires =>
      (* the same callback; nothing refers to this timeout, so it is never
         refreshed: it fires once *)
      match stale M with
      | S k => call_processUpdates ByTimer (mkMachine w (inflight M) (rejected M) k)
      | O => M
      end
  end.

Definition run (es : list Event) (M : Machine) : Machine :=
  foldl (λ M e, step e M) M es.


(** *** Notions used in the statements *)

(** The number of [start()] calls among the events. *)
Definition is_start (e : Event) : bool :=
  match e with Start => true | _ => false end.

Definition starts (es : list Event) : nat := length (List.filter is_start es).

(** The service after the synchronous part of [registerMapping]. *)
Definition push_svc (m : SchemaMapping) (s : SchemaService) : SchemaService :=
  let s1 := claim m s in
  if ownerMatches s1 m then set_queue (updateQueue s1 ++ [m]) s1 else s1.

(** The service after a series of [registerMapping] calls without flush. *)
Definition regs_svc (ms : list SchemaMapping) (s : SchemaService) : SchemaService :=
  foldl (λ s m, push_svc m s) s ms.

(** Every mapping of the batch has a handler, and the handler returns. *)
Definition handlers_return (s : SchemaService) (batch : list SchemaMapping) : Prop :=
  Forall (λ m, ∃ h, handlers s (type m) = Some h
                    ∧ ∀ tbl st, (handleUpdate h m tbl st).2 = Returned) batch.

(** Every claim recorded in the ownership table names its owner. *)
Definition owners_defined (s : SchemaService) : Prop :=
  ∀ k m, owned s !! k = Some m → owner m ≠ None.

(** The drains in flight that the timer callback awaits. *)
Definition by_timer (d : Drain) : bool :=
  match caller d with ByTimer => true | ByOther => false end.

Definition timer_drains (M : Machine) : list Drain := List.filter by_timer (inflight M).

(** The timer callback has at most one drain in flight, and none while
    the timeout is pending (or before the timer is started). *)
Definition timer_ok (M : Machine) : Prop :=
  match timer (svc (world M)) with
  | Some Fired => length (timer_drains M) ≤ 1
  | _ => timer_drains M = []
  end.

(** The timer has fired and no drain of its callback is left in flight. *)
Definition timer_dead (M : Machine) : Prop :=
  timer (svc (world M)) = Some Fired ∧ timer_drains M = [].

End SchemaService.

Arguments SchemaHandler : clear implicits.
Arguments SchemaService : clear implicits.
Arguments World : clear implicits.
Arguments Drain : clear implicits.
Arguments Machine : clear implicits.

(** ** JsonSchemaHandler *)

(** [export interface JSONSchemaSettings]; [inline_schema] is the field
    [schema?: any], which the handler never reads. *)
Record JSONSchemaSettings := mkSetting {
  fileMatch : option (list string);
  url : option string;
  inline_schema : option string
}.

Definition set_fileMatch (fm : option (list string)) (e : JSONSchemaSettings) :=
  mkSetting fm (url e) (inline_schema e).

(** [s.endsWith(suffix)] *)
Definition endsWith (s suffix : string) : bool :=
  let n := String.length s in
  let k := String.length suffix in
  bool_decide (k ≤ n) && String.eqb (String.substring (n - k) k s) suffix.

(** [Array.prototype.findIndex], with [None] for [-1]. *)
Fixpoint findIndex {A} (f : A → bool) (l : list A) : option nat :=
  match l with
  | [] => None
  | x :: l' => if f x then Some 0 else S <$> findIndex f l'
  end.

(** [function filterJsonSettings(settings, predicate)]: every entry has its
    [fileMatch] filtered, and the entries left with an empty one are dropped. *)
Definition filterJsonSettings (settings : list JSONSchemaSettings)
    (predicate : string → bool) : list JSONSchemaSettings :=
  List.filter
    (λ e, match fileMatch e with None => true | Some fm => bool_decide (0 < length fm) end)
    ((λ e, set_fileMatch (List.filter predicate <$> fileMatch e) e) <$> settings).

(** [function resolveSchema(schema, schemas)] *)
Definition resolveSchema (r : SchemaRef) (tbl : Schemas) : option Uri :=
  match r with
  | SchemaLocation u => Some u
  | SchemaName name => tbl !! name
  end.

(** [if (mapping.schema)]: the schema when it is truthy. *)
Definition schema_if_truthy (o : option SchemaRef) : option SchemaRef :=
  if schema_truthy o then o else None.

(** The handler's state.

    Modelled from the spec: the configuration store behind [this.config]
    ([Settings], defined in another module) is "an ordered list of
    [{fileMatch, url}] records, persisted and read by a generic configuration
    store under a fixed key": [config.get('json.schemas', ...)] gives the
    stored records themselves, so that the record found by [getSettingBy] is
    the record of [settings] (it is denoted by its index), and
    [config.update('json.schemas', v)] stores [v].  [cleaned] is the state
    of [once(...)] in the field [clean]. *)
Record JsonStore := mkJsonStore {
  json_schemas : list JSONSchemaSettings;
  cleaned : bool
}.

Section JsonSchemaHandler.

(** [pathutil.normalize] and [normalizeVSCodeUri], defined in other modules
    of the toolkit. *)
Variable normalize : string → string.
Variable normalizeVSCodeUri : Uri → string.

(** [private getJsonSettings()] *)
Definition getJsonSettings (st : JsonStore) : list JSONSchemaSettings := json_schemas st.

(** [this.config.update('json.schemas', settings)] *)
Definition config_update (settings : list JSONSchemaSettings) (st : JsonStore) : JsonStore :=
  mkJsonStore settings (cleaned st).

(** The arguments of [getSettingBy] after [typeof x === 'string' ? x : x?.fsPath]. *)
Definition path_of (a : option (string + Uri)) : option string :=
  match a with
  | Some (inl s) => Some s
  | Some (inr u) => Some (uri_fsPath u)
  | None => None
  end.

(** The predicate of [settings.find] in [getSettingBy]. *)
Definition setting_matches (schm path : option string) (e : JSONSchemaSettings) : bool :=
  let schmMatch :=
    match schm, url e with
    | Some s, Some u => truthy s && truthy u && String.eqb (normalize u) (normalize s)
    | _, _ => false
    end in
  let fileMatch_ :=
    match path, fileMatch e with
    | Some p, Some fm => truthy p && bool_decide (p ∈ fm)
    | _, _ => false
    end in
  (negb (truthy_opt path) || fileMatch_) && (negb (truthy_opt schm) || schmMatch).

(** [private getSettingBy(args)]: the index in the settings of the entry
    that [find] returns. *)
Definition getSettingBy (schemaPath file : option (string + Uri)) (st : JsonStore) : option nat :=
  findIndex (setting_matches (path_of schemaPath) (path_of file)) (getJsonSettings st).

(** [public isMapped(file)] *)
Definition json_isMapped (file : string + Uri) (st : JsonStore) : bool :=
  defined (getSettingBy None (Some file) st).

(** [private async cleanResourceMappings()] *)
Definition cleanResourceMappings (st : JsonStore) : JsonStore :=
  config_update
    (filterJsonSettings (getJsonSettings st) (λ file, negb (endsWith file ".awsResource.json")))
    st.

(** [this.clean()], with [clean = once(() => this.cleanResourceMappings())]. *)
Definition clean (st : JsonStore) : JsonStore :=
  if cleaned st then st
  else mkJsonStore (json_schemas (cleanResourceMappings st)) true.

(** [existing.fileMatch.push(path)] on the entry at index [i], unless it
    has no [fileMatch]. *)
Definition push_fileMatch (i : nat) (path : string)
    (settings : list JSONSchemaSettings) : list JSONSchemaSettings :=
  match settings !! i with
  | Some e =>
      match fileMatch e with
      | None => settings
      | Some fm => <[i := set_fileMatch (Some (fm ++ [path])) e]> settings
      end
  | None => settings
  end.

(** [async handleUpdate(mapping, schemas)] *)
Definition json_handleUpdate (m : SchemaMapping) (tbl : Schemas)
    (st : JsonStore) : JsonStore * Completion :=
  let st1 := clean st in
  let settings := getJsonSettings st1 in
  let path := normalizeVSCodeUri (uri m) in
  match schema_if_truthy (schema m) with
  | Some r =>
      match resolveSchema r tbl with
      | None => (st1, Returned)
      | Some sch =>
          let schemaUri := uri_toString sch in
          match getSettingBy (Some (inl schemaUri)) None st1 with
          | Some existing => (config_update (push_fileMatch existing path settings) st1, Returned)
          | None =>
              (config_update (settings ++ [mkSetting (Some [path]) (Some schemaUri) None]) st1,
               Returned)
          end
      end
  | None =>
      (config_update (filterJsonSettings settings (λ file, negb (String.eqb file path))) st1,
       Returned)
  end.

(** [class JsonSchemaHandler implements SchemaHandler] *)
Definition JsonSchemaHandler : SchemaHandler JsonStore := mkHandler json_handleUpdate.

(** The handler after a series of updates, handled one after the other. *)
Definition dispatch_all (tbl : Schemas) (ms : list SchemaMapping) (st : JsonStore) : JsonStore :=
  foldl (λ st m, (json_handleUpdate m tbl st).1) st ms.

End JsonSchemaHandler.

(** ** updateSchemaFromRemote and getDefaultSchemas *)

(** The lines these functions send to the logger. *)
Inductive Notice :=
  | FailedToUpdateCacheKey (title message : string)   (* warn *)
  | UsingCachedSchema (title message : string)        (* warn *)
  | CouldNotDownload (what message : string).         (* verbose *)

(** What the functions read and write: the version cache
    ([extensionContext.globalState]), the files by [fsPath], and, for the
    record, the URLs requested over HTTP and the lines logged. *)
Record Env := mkEnv {
  globalState : gmap string string;
  files : gmap string string;
  requests : list string;
  notices : list Notice
}.

(** An awaited value: it is returned, or an [Error] is thrown. *)
Inductive Result (A : Type) :=
  | Ret (a : A)
  | Raise (message : string).
Arguments Ret {A} a.
Arguments Raise {A} message.

(** An [async] function over [Env]. *)
Definition Task (A : Type) : Type := Env → Result A * Env.

#[global] Instance Task_ret : MRet Task := λ A a env, (Ret a, env).
#[global] Instance Task_bind : MBind Task := λ A B f t env,
  match t env with
  | (Ret a, env1) => f a env1
  | (Raise e, env1) => (Raise e, env1)
  end.

(** [throw new Error(message)] *)
Definition throw {A} (message : string) : Task A := λ env, (Raise message, env).

(** [try { body } catch (e) { handler(e.message) }] *)
Definition try_catch {A} (body : Task A) (handler : string → Task A) : Task A := λ env,
  match body env with
  | (Ret a, env1) => (Ret a, env1)
  | (Raise e, env1) => handler e env1
  end.

Definition notice (n : Notice) : Task unit := λ env,
  (Ret (), mkEnv (globalState env) (files env) (requests env) (notices env ++ [n])).

(** [globalState.get<string>(key)] *)
Definition globalState_get (key : string) : Task (option string) := λ env,
  (Ret (globalState env !! key), env).

(** [new FileResourceFetcher(path).get()]: the content, or nothing. *)
Definition FileResourceFetcher_get (path : string) : Task (option string) := λ env,
  (Ret (files env !! path), env).

(** The parameters of [updateSchemaFromRemote] ([extensionContext] is [Env]). *)
Record UpdateParams := mkParams {
  destination : Uri;
  version : option string;
  source_url : string;
  cacheKey : string;
  title : string
}.

(** The template literal [`${x}`] of a [string | undefined]. *)
Definition interpolate (o : option string) : string := default "undefined" o.

(** The host: the answer of the network to the [n]-th request, and the
    errors of the file system and of the version cache (nothing when the
    operation succeeds). *)
Record Host := mkHost {
  http : nat → string → option string;
  createDirectory_error : Uri → option string;
  writeFile_error : string → option string;
  globalState_update_error : string → option string
}.

(** Library functions: [JSON.parse] (with the message of its SyntaxError),
    [{ ...value, title }], [JSON.stringify], property access on a parsed
    value, [vscode.Uri.joinPath], and [getStringHash] and [AWS_SCHEME] from
    other modules of the toolkit. *)
Record Library (JSONValue : Type) := mkLibrary {
  JSON_parse : string → Result JSONValue;
  with_title : JSONValue → string → JSONValue;
  JSON_stringify : JSONValue → string;
  property : JSONValue → string → option string;
  joinPath : Uri → string → Uri;
  getStringHash : string → string;
  AWS_SCHEME : string
}.
Arguments mkLibrary {JSONValue}.
Arguments JSON_parse {JSONValue}.
Arguments with_title {JSONValue}.
Arguments JSON_stringify {JSONValue}.
Arguments property {JSONValue}.
Arguments joinPath {JSONValue}.
Arguments getStringHash {JSONValue}.
Arguments AWS_SCHEME {JSONValue}.

Section Downloader.

Variable host : Host.
Context {JSONValue : Type}.
Variable lib : Library JSONValue.

(** [new HttpResourceFetcher(url, { showUrl: true }).get()]: the content,
    or nothing; the request is recorded. *)
Definition HttpResourceFetcher_get (u : string) : Task (option string) := λ env,
  (Ret (http host (length (requests env)) u),
   mkEnv (globalState env) (files env) (requests env ++ [u]) (notices env)).

(** [SystemUtilities.createDirectory(dir)] *)
Definition createDirectory (dir : Uri) : Task unit :=
  match createDirectory_error host dir with
  | Some e => throw e
  | None => mret ()
  end.

(** [writeFile(path, data)] *)
Definition writeFile (path data : string) : Task unit :=
  match writeFile_error host path with
  | Some e => throw e
  | None => λ env,
      (Ret (), mkEnv (globalState env) (<[path := data]> (files env)) (requests env) (notices env))
  end.

(** [globalState.update(key, value)]; updating to [undefined] removes the key. *)
Definition globalState_update (key : string) (value : option string) : Task unit :=
  match globalState_update_error host key with
  | Some e => throw e
  | None => λ env,
      (Ret (),
       mkEnv (match value with
              | Some v => <[key := v]> (globalState env)
              | None => delete key (globalState env)
              end)
             (files env) (requests env) (notices env))
  end.

(** The value of [JSON.parse(content)], or its SyntaxError. *)
Definition parse (content : string) : Task JSONValue := λ env,
  (JSON_parse lib content, env).

(** [params.version && params.version !== cachedVersion], as a condition. *)
Definition is_outdated (v cachedVersion : option string) : bool :=
  truthy_opt v && negb (bool_decide (v = cachedVersion)).

(** The body of the [try] block of [updateSchemaFromRemote]. *)
Definition fetch_and_store (p : UpdateParams) : Task unit :=
  content ← HttpResourceFetcher_get (source_url p);
  match content with
  | Some c =>
      if truthy c then
        parsed ← parse c;
        let parsedFile := with_title lib parsed (title p) in
        let dir := joinPath lib (destination p) ".." in
        _ ← createDirectory dir;
        _ ← writeFile (uri_fsPath (destination p)) (JSON_stringify lib parsedFile);
        try_catch (globalState_update (cacheKey p) (version p))
                  (λ err, notice (FailedToUpdateCacheKey (title p) err))
      else throw ("failed to resolve schema: " +:+ uri_toString (destination p))
  | None => throw ("failed to resolve schema: " +:+ uri_toString (destination p))
  end.

(** The error, if any, that the [try] block of [updateSchemaFromRemote]
    ends with when the request is the [n]-th one: the fetch gave nothing,
    or the parse, the making of the directory or the write failed. *)
Definition fetch_failure (p : UpdateParams) (n : nat) : option string :=
  match http host n (source_url p) with
  | Some c =>
      if truthy c then
        match JSON_parse lib c with
        | Raise e => Some e
        | Ret _ =>
            match createDirectory_error host (joinPath lib (destination p) "..") with
            | Some e => Some e
            | None => writeFile_error host (uri_fsPath (destination p))
            end
        end
      else Some ("failed to resolve schema: " +:+ uri_toString (destination p))
  | None => Some ("failed to resolve schema: " +:+ uri_toString (destination p))
  end.

(** [export async function updateSchemaFromRemote(params)] *)
Definition updateSchemaFromRemote (p : UpdateParams) : Task unit :=
  cachedVersion ← globalState_get (cacheKey p);
  let outdated := is_outdated (version p) cachedVersion in
  cachedContent ← FileResourceFetcher_get (uri_fsPath (destination p));
  if negb outdated && truthy_opt cachedContent then mret ()
  else
    try_catch (fetch_and_store p)
      (λ err,
         if truthy_opt cachedContent
         then notice (UsingCachedSchema (title p) err)
         else throw err).

(** Modelled from the spec: [getPropertyFromJsonUrl] and [getFromUrl]
    (from httpResourceFetcher, another module of the toolkit).  The
    fetchers "get bytes from URL/path, return content or nothing"; the
    manifest is "a fixed remote URL returning JSON with a [tag_name]
    field", and when the call fails the version is absent and nothing is
    thrown. *)
Definition getFromUrl (u : string) : Task (option string) := HttpResourceFetcher_get u.

Definition getPropertyFromJsonUrl (u prop : string) : Task (option string) :=
  content ← HttpResourceFetcher_get u;
  mret (match content with
        | Some c =>
            if truthy c
            then match JSON_parse lib c with Ret v => property lib v prop | Raise _ => None end
            else None
        | None => None
        end).

Definition goformationManifestURL : string :=
  "https://api.github.com/repos/awslabs/goformation/releases/latest".
Definition schemaPrefix : string := AWS_SCHEME lib +:+ "://".
Definition buildspecHostedFilesPath : string :=
  "/CodeBuild/buildspec/buildspec-standalone.schema.json".
Definition buildspecCloudfrontURL : string :=
  "https://d3rrggjwfhwld2.cloudfront.net" +:+ buildspecHostedFilesPath.
Definition buildspecS3FallbackURL : string :=
  "https://aws-vs-toolkit.s3.amazonaws.com" +:+ buildspecHostedFilesPath.

Definition cfnSchemaUri (path : Uri) : Uri := joinPath lib path "cloudformation.schema.json".
Definition samSchemaUri (path : Uri) : Uri := joinPath lib path "sam.schema.json".
Definition buildSpecSchemaUri (path : Uri) : Uri := joinPath lib path "buildspec.schema.json".

Definition goformationURL (v : option string) (file : string) : string :=
  "https://raw.githubusercontent.com/awslabs/goformation/" +:+ interpolate v
    +:+ "/schema/" +:+ file.

(** The statements the two [try] blocks for the buildspec schema share, up
    to the URL: fetch the document, hash it for a version, update. *)
Definition updateBuildspecFrom (u : string) (buildSpecSchemaLocation : Uri) : Task unit :=
  contents ← getFromUrl u;
  let buildspecSchemaVersion :=
    match contents with
    | Some c => if truthy c then Some (getStringHash lib c) else None
    | None => None
    end in
  updateSchemaFromRemote
    (mkParams buildSpecSchemaLocation buildspecSchemaVersion u "buildSpecSchemaVersion"
              (schemaPrefix +:+ "buildspec.schema.json")).

(** The first part of [getDefaultSchemas]: the manifest, and the [try]
    blocks of the cfn and the sam schema. *)
Definition goformationSchemas (globalStorageUri : Uri) : Task Schemas :=
  let cfnSchemaLocation := cfnSchemaUri globalStorageUri in
  let samSchemaLocation := samSchemaUri globalStorageUri in
  goformationSchemaVersion ← getPropertyFromJsonUrl goformationManifestURL "tag_name";
  let schemas0 : Schemas := ∅ in
  schemas1 ←
    try_catch
      (_ ← updateSchemaFromRemote
             (mkParams cfnSchemaLocation goformationSchemaVersion
                (goformationURL goformationSchemaVersion "cloudformation.schema.json")
                "cfnSchemaVersion" (schemaPrefix +:+ "cloudformation.schema.json"));
       mret (<["cfn" := cfnSchemaLocation]> schemas0))
      (λ e, _ ← notice (CouldNotDownload "cfn schema" e); mret schemas0);
  try_catch
    (_ ← updateSchemaFromRemote
           (mkParams samSchemaLocation goformationSchemaVersion
              (goformationURL goformationSchemaVersion "sam.schema.json")
              "samSchemaVersion" (schemaPrefix +:+ "sam.schema.json"));
     mret (<["sam" := samSchemaLocation]> schemas1))
    (λ e, _ ← notice (CouldNotDownload "sam schema" e); mret schemas1).

(** The last part of [getDefaultSchemas]: the nested [try] blocks of the
    buildspec schema. *)
Definition buildspecSchemas (globalStorageUri : Uri) (schemas2 : Schemas) : Task Schemas :=
  let buildSpecSchemaLocation := buildSpecSchemaUri globalStorageUri in
  try_catch
    (try_catch
       (_ ← updateBuildspecFrom buildspecCloudfrontURL buildSpecSchemaLocation;
        mret (<["buildspec" := buildSpecSchemaLocation]> schemas2))
       (λ e,
          _ ← notice (CouldNotDownload "buildspec schema from CloudFront" e);
          _ ← updateBuildspecFrom buildspecS3FallbackURL buildSpecSchemaLocation;
          mret (<["buildspec" := buildSpecSchemaLocation]> schemas2)))
    (λ e, _ ← notice (CouldNotDownload "buildspec schema" e); mret schemas2).

(** [export async function getDefaultSchemas(extensionContext)] *)
Definition getDefaultSchemas (globalStorageUri : Uri) : Task Schemas :=
  schemas2 ← goformationSchemas globalStorageUri;
  buildspecSchemas globalStorageUri schemas2.

(** The document that the [try] block of [updateSchemaFromRemote] writes
    when the request is the [n]-th one: the fetched content, parsed, given
    the title and turned into text again. *)
Definition fetched_document (p : UpdateParams) (n : nat) : option string :=
  match http host n (source_url p) with
  | Some c =>
      if truthy c then
        match JSON_parse lib c with
        | Ret v => Some (JSON_stringify lib (with_title lib v (title p)))
        | Raise _ => None
        end
      else None
  | None => None
  end.

(** The parameters that both [try] blocks for the buildspec schema give
    to [updateSchemaFromRemote], up to the version and the URL. *)
Definition buildspecParams (buildSpecSchemaLocation : Uri) (v : option string)
    (u : string) : UpdateParams :=
  mkParams buildSpecSchemaLocation v u "buildSpecSchemaVersion"
    (schemaPrefix +:+ "buildspec.schema.json").

(** [globalState.update(key, value)] on the version cache itself. *)
Definition cache_updated (key : string) (value : option string)
    (cache : gmap string string) : gmap string string :=
  match value with
  | Some v => <[key := v]> cache
  | None => delete key cache
  end.

End Downloader.

(** ** The schema registry of the YAML extension (src/shared/extensions/yaml.ts) *)

(** A JavaScript [Map<string, V>] as the list of its entries in insertion
    order: [set] on a key that is present keeps the place of the key,
    [delete] removes the entry, [values()] goes through the entries in
    order. *)
Fixpoint jsmap_set {V} (k : string) (v : V) (m : list (string * V)) : list (string * V) :=
  match m with
  | [] => [(k, v)]
  | (k', v') :: m' =>
      if String.eqb k' k then (k, v) :: m' else (k', v') :: jsmap_set k v m'
  end.

Definition jsmap_delete {V} (k : string) (m : list (string * V)) : list (string * V) :=
  List.filter (λ kv, negb (String.eqb kv.1 k)) m.

Definition jsmap_has {V} (k : string) (m : list (string * V)) : bool :=
  existsb (λ kv, String.eqb kv.1 k) m.

Definition jsmap_values {V} (m : list (string * V)) : list V := snd <$> m.

(** [schemaMap: Map<string, Map<string, vscode.Uri>>], from the path of a
    document to the schemas the registries gave it.  The outer map is only
    read and written by key. *)
Abbreviation SchemaMap := (gmap string (list (string * Uri))).

Section YamlRegistry.

(** [uri.with({ scheme })] of the editor's API, and the constant
    [AWS_SCHEME] of the toolkit. *)
Variable with_scheme : string → Uri → Uri.
Variable aws_scheme : string.

(** [function applyScheme(scheme, path)] *)
Definition applyScheme (scheme : string) (path : Uri) : Uri := with_scheme scheme path.

(** [function evaluate(schema)]: a Uri, or a function that gives one. *)
Definition evaluate (schema : Uri + (unit → Uri)) : Uri :=
  match schema with
  | inl u => u
  | inr f => f ()
  end.

(** [function registerSchema(path, registry, schema, schemaMap)] *)
Definition registerSchema (path : string) (registry : option string)
    (schema : Uri + (unit → Uri)) (schemaMap : SchemaMap) : SchemaMap :=
  match registry with
  | Some r =>
      if truthy r then
        let schemaMap1 :=
          match schemaMap !! path with
          | Some _ => schemaMap
          | None => <[path := []]> schemaMap
          end in
        <[path := jsmap_set r (applyScheme aws_scheme (evaluate schema))
                    (default [] (schemaMap1 !! path))]> schemaMap1
      else schemaMap
  | None => schemaMap
  end.

(** [function deRegisterSchema(path, registry, schemaMap)] *)
Definition deRegisterSchema (path : string) (registry : option string)
    (schemaMap : SchemaMap) : SchemaMap :=
  match registry with
  | Some r =>
      if truthy r then
        match schemaMap !! path with
        | Some schemas => <[path := jsmap_delete r schemas]> schemaMap
        | None => schemaMap
        end
      else schemaMap
  | None => schemaMap
  end.

(** [function getSchemas(path, schemaMap)]; the values of the inner map are
    Uris, none of them [undefined], so the [filter] keeps them all. *)
Definition getSchemas (path : string) (schemaMap : SchemaMap) : option string :=
  match schemaMap !! path with
  | None => None
  | Some schema =>
      let possibleSchemas := jsmap_values schema in
      match possibleSchemas with
      | u :: _ => Some (uri_toString u)
      | [] => None
      end
  end.

End YamlRegistry.

(** ** addCustomTags (src/shared/schemas.ts) *)

(** [async function addCustomTags(config)]: the value of the setting
    ['yaml.customTags'] after the call, and the error logged by the [catch]
    when [config.update] fails ([update_error] tells whether it does).
    [cloudFormationTags] is the constant [CloudFormation.cloudFormationTags]
    of the toolkit. *)
Definition addCustomTags (cloudFormationTags : list string) (update_error : option string)
    (currentTags : list string) : list string * option string :=
  let missingTags :=
    List.filter (λ item, negb (bool_decide (item ∈ currentTags))) cloudFormationTags in
  if bool_decide (0 < length missingTags) then
    let updateTags := currentTags ++ missingTags in
    match update_error with
    | None => (updateTags, None)
    | Some e => (currentTags, Some e)
    end
  else (currentTags, None).

(** ** makeChildrenNodes (src/shared/treeview/treeNodeUtilities.ts) *)

Section MakeChildrenNodes.

Context {Node : Type}.

(** [childNodes.sort(cmp)], which sorts the array in place: the array
    after the call and, when the call threw (the comparator may throw), the
    error.  And the id that [getLogger().error(err)] returns. *)
Variable array_sort : (Node → Node → Result Z) → list Node → list Node * option string.
Variable logger_error : string → nat.

(** The parameters of [makeChildrenNodes]: the outcome of the awaited
    [getChildNodes()], the optional provider of a placeholder with the
    outcome of its call, the maker of the error node and the optional
    comparator, whose calls return a number or throw. *)
Record ChildrenParameters := mkChildrenParameters {
  getChildNodes : Result (list Node);
  getNoChildrenPlaceholderNode : option (Result Node);
  getErrorNode : string → nat → Node;
  sort : option (Node → Node → Result Z)
}.

(** [export async function makeChildrenNodes(parameters)].  The [try]
    block covers the three steps; the [catch] block pushes the error node
    onto the array as the failing step left it. *)
Definition makeChildrenNodes (parameters : ChildrenParameters) : list Node :=
  let error_node err := getErrorNode parameters err (logger_error err) in
  match getChildNodes parameters with
  | Raise err => [error_node err]
  | Ret nodes =>
      let childNodes := nodes in
      match childNodes, getNoChildrenPlaceholderNode parameters with
      | [], Some (Raise err) => childNodes ++ [error_node err]
      | [], Some (Ret placeholder) =>
          let childNodes := childNodes ++ [placeholder] in
          match sort parameters with
          | Some cmp =>
              match array_sort cmp childNodes with
              | (sorted, None) => sorted
              | (childNodes, Some err) => childNodes ++ [error_node err]
              end
          | None => childNodes
          end
      | _, _ =>
          match sort parameters with
          | Some cmp =>
              match array_sort cmp childNodes with
              | (sorted, None) => sorted
              | (childNodes, Some err) => childNodes ++ [error_node err]
              end
          | None => childNodes
          end
      end
  end.

End MakeChildrenNodes.

Arguments ChildrenParameters : clear implicits.

(** ** Concrete data for the examples *)

Definition doc1 : Uri := mkUri 1 "/ws/doc1.json" "file:///ws/doc1.json".
Definition doc2 : Uri := mkUri 2 "/ws/doc2.json" "file:///ws/doc2.json".
Definition cfnLocation : Uri :=
  mkUri 10 "/store/cloudformation.schema.json" "file:///store/cloudformation.schema.json".
Definition samLocation : Uri := mkUri 11 "/store/sam.schema.json" "file:///store/sam.schema.json".

Definition table0 : Schemas := <["cfn" := cfnLocation]> (<["sam" := samLocation]> ∅).

Definition byA_cfn : SchemaMapping := mkMapping doc1 json (Some "featureA") (Some (SchemaName "cfn")).
Definition byB_sam : SchemaMapping := mkMapping doc1 json (Some "featureB") (Some (SchemaName "sam")).
Definition byA_removal : SchemaMapping := mkMapping doc1 json (Some "featureA") None.
Definition yaml_doc2 : SchemaMapping := mkMapping doc2 yaml None (Some (SchemaName "cfn")).

(** A handler that records the mappings it is given. *)
Definition recorder : SchemaHandler (list SchemaMapping) :=
  mkHandler (λ m _ st, (st ++ [m], Returned)).

(** A handler map that binds only ['json']. *)
Definition json_only (t : SchemaType) : option (SchemaHandler (list SchemaMapping)) :=
  match t with json => Some recorder | yaml => None end.

Definition both_types (t : SchemaType) : option (SchemaHandler (list SchemaMapping)) :=
  Some recorder.

(** A service with a resolved table whose handlers record what they are
    given, a fresh world, and the world after [featureA] has claimed [doc1]. *)
Definition service0 : SchemaService (list SchemaMapping) :=
  new_SchemaService (Some table0) None both_types.
Definition world0 : World (list SchemaMapping) := mkWorld service0 [] [].
Definition world_owned_by_A : World (list SchemaMapping) := registerMapping byA_cfn None world0.


(** A service without a handler for ['yaml'], with three mappings queued. *)
Definition world_json_only : World (list SchemaMapping) :=
  registerMapping byA_removal None
    (registerMapping yaml_doc2 None
       (registerMapping byA_cfn None
          (mkWorld (new_SchemaService (Some table0) None json_only) [] []))).

(** The same service in its event loop, started, with the ['yaml'] mapping
    queued. *)
Definition machine_json_only : Machine (list SchemaMapping) :=
  run [Start; SchemasResolved table0; Register yaml_doc2 None]
    (mkMachine (mkWorld (new_SchemaService None None json_only) [] []) [] [] 0).

(** A machine with two mappings queued and nothing in flight, and the
    mappings registered at the two awaits of its drain. *)
Definition unowned_doc2 : SchemaMapping := mkMapping doc2 json None None.
Definition machine_two : Machine (list SchemaMapping) :=
  mkMachine (registerMapping yaml_doc2 None world_owned_by_A) [] [] 0.

(** A machine that has never run. *)
Definition machine_new : Machine (list SchemaMapping) :=
  mkMachine (mkWorld (new_SchemaService None None both_types) [] []) [] [] 0.

(** A service whose ['json'] handler is the [JsonSchemaHandler] (paths are
    taken as they are: [normalize] is the identity and [normalizeVSCodeUri]
    gives the [fsPath]), over an empty list of settings. *)
Definition json_handlers (t : SchemaType) : option (SchemaHandler JsonStore) :=
  match t with
  | json => Some (JsonSchemaHandler (λ path, path) uri_fsPath)
  | yaml => None
  end.
Definition json_world : World JsonStore :=
  mkWorld (new_SchemaService (Some table0) None json_handlers) (mkJsonStore [] false) [].

(** Hosts and a library for the examples: the parsed value is the text
    itself, the title is not shown, a joined path is a new object. *)
Definition lib0 : Library string :=
  mkLibrary (λ c, Ret c) (λ v _, v) (λ v, v) (λ _ _, None)
    (λ u name, mkUri (uri_id u + 1) (uri_fsPath u +:+ "/" +:+ name)
                     (uri_toString u +:+ "/" +:+ name))
    (λ c, c) "aws".
Definition storage : Uri := mkUri 20 "/store" "file:///store".
Definition host_offline : Host :=
  mkHost (λ _ _, None) (λ _, None) (λ _, None) (λ _, None).
Definition host_s3_only : Host :=
  mkHost (λ _ u, if String.eqb u buildspecS3FallbackURL then Some "{}" else None)
         (λ _, None) (λ _, None) (λ _, None).
Definition env0 : Env := mkEnv ∅ ∅ [] [].
Definition cfn_params : UpdateParams :=
  mkParams cfnLocation (Some "v1") "https://example.invalid/cfn.json" "cfnSchemaVersion" "cfn".
Definition env_cached : Env :=
  mkEnv (<["cfnSchemaVersion" := "v1"]> ∅) (<[uri_fsPath cfnLocation := "{}"]> ∅) [] [].

(** A second document for the [cfn] schema, a list of settings in which
    [doc1] is mapped to it, and one that still holds a resource file of an
    earlier session. *)
Definition byA_cfn_doc2 : SchemaMapping :=
  mkMapping doc2 json (Some "featureA") (Some (SchemaName "cfn")).
Definition store_mapped : JsonStore :=
  mkJsonStore [mkSetting (Some ["/ws/doc1.json"]) (Some (uri_toString cfnLocation)) None] true.
Definition store_stale : JsonStore :=
  mkJsonStore [mkSetting (Some ["/tmp/lambda.awsResource.json"]) (Some "aws://resource") None]
    false.

(** A host whose network answers every request with an empty object, the
    same host when the version cache cannot be written, and a library whose
    [JSON.stringify] writes the braces of an object. *)
Definition host_online : Host :=
  mkHost (λ _ _, Some "{}") (λ _, None) (λ _, None) (λ _, None).
Definition host_readonly : Host :=
  mkHost (λ _ _, Some "{}") (λ _, None) (λ _, None) (λ _, Some "read-only").
Definition lib_braces : Library string :=
  mkLibrary (λ c, Ret c) (λ v _, v) (λ v, "{" +:+ v +:+ "}") (λ _ _, None)
    (λ u name, mkUri (uri_id u + 1) (uri_fsPath u +:+ "/" +:+ name)
                     (uri_toString u +:+ "/" +:+ name))
    (λ c, c) "aws".

(** The three default schemas in the cache under [storage]. *)
Definition env_all_cached : Env :=
  mkEnv ∅ (<[uri_fsPath (cfnSchemaUri lib0 storage) := "{}"]>
            (<[uri_fsPath (samSchemaUri lib0 storage) := "{}"]>
               (<[uri_fsPath (buildSpecSchemaUri lib0 storage) := "{}"]> ∅))) [] [].

(** [uri.with({ scheme })] for the examples, and a template. *)
Definition with_scheme0 (scheme : string) (u : Uri) : Uri :=
  mkUri (uri_id u) (uri_fsPath u) (scheme +:+ "://" +:+ uri_fsPath u).
Definition template_path : string := "/ws/template.yaml".

(** [Array.prototype.sort] for the examples: a merge sort by the sign of
    the comparator, which throws what the comparator throws at two elements
    of the array and then leaves the array as it was.  A logger, and the
    parameters of a node without children, of a node with three, and of a
    node with three whose comparator throws. *)
Fixpoint first_throw (cmp : nat → nat → Result Z) (pairs : list (nat * nat)) : option string :=
  match pairs with
  | [] => None
  | (a, b) :: pairs =>
      match cmp a b with
      | Raise e => Some e
      | Ret _ => first_throw cmp pairs
      end
  end.
Definition sign_of (r : Result Z) : Z := match r with Ret z => z | Raise _ => 0%Z end.
Definition array_sort0 (cmp : nat → nat → Result Z) (l : list nat) : list nat * option string :=
  match first_throw cmp (list_prod l l) with
  | Some e => (l, Some e)
  | None =>
      (@merge_sort nat (λ a b, (sign_of (cmp a b) ≤ 0)%Z)
         (λ a b, decide (sign_of (cmp a b) ≤ 0)%Z) l, None)
  end.
Definition logger0 (_ : string) : nat := 0.
Definition three_children : ChildrenParameters nat :=
  mkChildrenParameters (Ret [3; 1; 2]) (Some (Ret 0)) (λ _ logID, logID)
    (Some (λ a b, Ret (Z.of_nat a - Z.of_nat b)%Z)).
Definition three_children_no_order : ChildrenParameters nat :=
  mkChildrenParameters (Ret [3; 1; 2]) (Some (Ret 0)) (λ _ logID, logID)
    (Some (λ _ _, Raise "cannot compare")).

(** * Properties *)

(** ** SchemaService: ownership and queue *)

Section SchemaServiceFacts.

Context {Store : Type}.
Implicit Types (w : World Store) (s : SchemaService Store) (m : SchemaMapping).

Lemma set_svc_id w : set_svc (svc w) w = w.
Proof. by destruct w. Qed.

Lemma enqueue_world m w : (enqueue m w).1 = set_svc (push_svc m (svc w)) w.
Proof. unfold enqueue, push_svc. by destruct (ownerMatches _ _). Qed.

Lemma enqueue_pushed m w : (enqueue m w).2 = ownerMatches (claim m (svc w)) m.
Proof. unfold enqueue. by destruct (ownerMatches _ _). Qed.

Lemma claim_handlers m s : handlers (claim m s) = handlers s.
Proof. unfold claim. by destruct (_ || _). Qed.

Lemma claim_schemas m s : schemas (claim m s) = schemas s.
Proof. unfold claim. by destruct (_ || _). Qed.

Lemma claim_timer m s : timer (claim m s) = timer s.
Proof. unfold claim. by destruct (_ || _). Qed.

Lemma claim_queue m s : updateQueue (claim m s) = updateQueue s.
Proof. unfold claim. by destruct (_ || _). Qed.

Lemma push_svc_handlers m s : handlers (push_svc m s) = handlers s.
Proof. unfold push_svc. destruct (ownerMatches _ _); simpl; apply claim_handlers. Qed.

Lemma push_svc_schemas m s : schemas (push_svc m s) = schemas s.
Proof. unfold push_svc. destruct (ownerMatches _ _); simpl; apply claim_schemas. Qed.

Lemma push_svc_timer m s : timer (push_svc m s) = timer s.
Proof. unfold push_svc. destruct (ownerMatches _ _); simpl; apply claim_timer. Qed.

(** A mapping is pushed at the end of the queue, or the queue is left as
    it is. *)
Lemma push_svc_queue m s :
  updateQueue (push_svc m s)
  = updateQueue s ++ (if ownerMatches (claim m s) m then [m] else []).
Proof.
  unfold push_svc. destruct (ownerMatches _ _); simpl; rewrite claim_queue; [done|].
  by rewrite app_nil_r.
Qed.

(** The two claim conditions exclude each other. *)
Lemma isOwnerUndefined_owned m s rec :
  owned_get s m = Some rec → isOwnerUndefined s m = false.
Proof. intros H. unfold isOwnerUndefined. by rewrite H. Qed.

Lemma owned_get_claimed m s :
  isOwnerUndefined s m || isSchemaChanged s m = true →
  owned_get (claim m s) m = Some m.
Proof.
  intros H. unfold claim. rewrite H. unfold owned_get. simpl. apply lookup_insert_eq.
Qed.

Lemma ownerMatches_claimed m s :
  isOwnerUndefined s m || isSchemaChanged s m = true →
  ownerMatches (claim m s) m = true.
Proof.
  intros H. unfold ownerMatches. rewrite (owned_get_claimed _ _ H). simpl.
  unfold owner_strict_eq. by apply bool_decide_eq_true.
Qed.

(** *** The drain loop *)

Lemma dispatch_svc tbl m w : svc (dispatch tbl m w).1 = svc w.
Proof. unfold dispatch. by destruct (handlers _ _). Qed.

Lemma drain_svc tbl batch w : svc (drain tbl batch w).1 = svc w.
Proof.
  revert w. induction batch as [|m batch IH]; intros w; simpl; [done|].
  destruct (dispatch tbl m w) as [w1 [|e]] eqn:E.
  - rewrite IH. by rewrite <- (dispatch_svc tbl m w), E.
  - by rewrite <- (dispatch_svc tbl m w), E.
Qed.

(** A dispatch reads the handlers and nothing else of the service. *)
Lemma dispatch_frame tbl m w s :
  handlers s = handlers (svc w) →
  dispatch tbl m (set_svc s w)
  = (set_svc s (dispatch tbl m w).1, (dispatch tbl m w).2).
Proof.
  intros H. unfold dispatch. simpl. rewrite H. by destruct (handlers _ _).
Qed.

Lemma drain_frame tbl batch w s :
  handlers s = handlers (svc w) →
  drain tbl batch (set_svc s w)
  = (set_svc s (drain tbl batch w).1, (drain tbl batch w).2).
Proof.
  revert w. induction batch as [|m batch IH]; intros w H; simpl; [done|].
  rewrite (dispatch_frame _ _ _ _ H).
  destruct (dispatch tbl m w) as [w1 [|e]] eqn:E; simpl; [|done].
  assert (svc w1 = svc w) as Hs by (by rewrite <- (dispatch_svc tbl m w), E).
  assert (set_svc s w1 = set_svc s (set_svc (svc w) w1)) as -> by done.
  rewrite <- Hs, set_svc_id. apply IH. by rewrite Hs.
Qed.

Lemma drain_app tbl b1 b2 w :
  drain tbl (b1 ++ b2) w
  = match drain tbl b1 w with
    | (w1, Returned) => drain tbl b2 w1
    | (w1, Threw e) => (w1, Threw e)
    end.
Proof.
  revert w. induction b1 as [|m b1 IH]; intros w; simpl; [done|].
  destruct (dispatch tbl m w) as [w1 [|e]]; [apply IH|done].
Qed.

Lemma drain_returns tbl batch w :
  handlers_return (svc w) batch →
  (drain tbl batch w).2 = Returned
  ∧ log (drain tbl batch w).1 = log w ++ (handle_line <$> batch).
Proof.
  revert w. induction batch as [|m batch IH]; intros w H; simpl.
  - by rewrite app_nil_r.
  - inversion H as [|? ? (h & Hh & Hret) Hrest]; subst.
    unfold dispatch. rewrite Hh. simpl.
    specialize (Hret tbl (store w)).
    destruct (handleUpdate h m tbl (store w)) as [st c] eqn:E. simpl in *. subst c.
    destruct (IH (set_store st (add_log (handle_line m) w)) Hrest) as [-> ->].
    split; [done|]. simpl. by rewrite <- app_assoc.
Qed.


End SchemaServiceFacts.

(** ** SchemaService: the event loop *)

Section EventLoopFacts.

Context {Store : Type}.
Implicit Types (M : Machine Store) (w : World Store) (s : SchemaService Store).
Implicit Types (m : SchemaMapping) (d : Drain).

Lemma regs_svc_handlers ms s : handlers (regs_svc ms s) = handlers s.
Proof.
  revert s. induction ms as [|m ms IH]; intros s; [done|].
  unfold regs_svc in *. simpl. rewrite IH. apply push_svc_handlers.
Qed.

Lemma regs_svc_timer ms s : timer (regs_svc ms s) = timer s.
Proof.
  revert s. induction ms as [|m ms IH]; intros s; [done|].
  unfold regs_svc in *. simpl. rewrite IH. apply push_svc_timer.
Qed.

Lemma regs_svc_app ms1 ms2 s : regs_svc (ms1 ++ ms2) s = regs_svc ms2 (regs_svc ms1 s).
Proof. apply foldl_app. Qed.

Lemma run_app (es1 es2 : list Event) M : run (es1 ++ es2) M = run es2 (run es1 M).
Proof. apply foldl_app. Qed.

Lemma run_cons (e : Event) es M : run (e :: es) M = run es (step e M).
Proof. done. Qed.

Lemma step_register m M :
  step (Register m None) M = set_world (set_svc (push_svc m (svc (world M))) (world M)) M.
Proof.
  unfold step. rewrite bool_decide_eq_false_2 by done.
  by rewrite andb_false_r, enqueue_world.
Qed.

(** Registrations without flush touch the service and nothing else. *)
Lemma run_registers ms M :
  run ((λ m, Register m None) <$> ms) M
  = set_world (set_svc (regs_svc ms (svc (world M))) (world M)) M.
Proof.
  revert M. induction ms as [|m ms IH]; intros M.
  - destruct M as [[? ? ?] ? ? ?]. done.
  - rewrite fmap_cons, run_cons, IH, step_register. done.
Qed.

(** With no drain suspended, resuming is void. *)
Lemma run_idle (regs : list (list SchemaMapping)) M :
  inflight M = [] →
  run (regs ≫= λ ms, ((λ m, Register m None) <$> ms) ++ [Resume 0]) M
  = set_world (set_svc (regs_svc (concat regs) (svc (world M))) (world M)) M.
Proof.
  revert M. induction regs as [|ms regs IH]; intros M HM.
  - destruct M as [[? ? ?] ? ? ?]. done.
  - rewrite bind_cons, !run_app, run_registers.
    rewrite run_cons. unfold step. simpl. rewrite HM. simpl.
    rewrite IH by done. simpl. by rewrite regs_svc_app.
Qed.

(** A drain whose awaits are interleaved with registrations: the store
    and the log are those of the drain run at once, the service is the one
    the registrations leave. *)
Lemma advance_interleaved batch : ∀ (regs : list (list SchemaMapping)) M c tbl,
  inflight M = [] → length regs = length batch →
  run (regs ≫= λ ms, ((λ m, Register m None) <$> ms) ++ [Resume 0])
      (advance c tbl batch M)
  = settle c (drain tbl batch (world M)).2
      (mkMachine
         (mkWorld (regs_svc (concat regs) (svc (world M)))
                  (store (drain tbl batch (world M)).1)
                  (log (drain tbl batch (world M)).1))
         [] (rejected M) (stale M)).
Proof.
  induction batch as [|m batch IH]; intros regs M c tbl HM Hlen.
  - destruct regs; [|done]. destruct M as [[? ? ?] ? ? ?]. simpl in *. by subst.
  - destruct regs as [|ms regs]; [done|]. simpl in Hlen.
    simpl advance. simpl drain.
    pose proof (dispatch_svc tbl m (world M)) as Hsvc.
    destruct (dispatch tbl m (world M)) as [w1 [|e]] eqn:E; simpl in Hsvc.
    + rewrite HM, bind_cons, !run_app, run_registers.
      rewrite run_cons. unfold step. simpl.
      rewrite IH; [|done|lia]. simpl.
      rewrite drain_frame by (by rewrite regs_svc_handlers). simpl.
      by rewrite Hsvc, regs_svc_app.
    + rewrite run_idle by done. simpl. by rewrite Hsvc, HM.
Qed.

(** *** Batches only shrink

    Whatever the event - a registration with or without flush, a timer
    firing, a direct call, a resumption - the batch of a drain in flight is
    never added to: after the event every suspended drain either was
    suspended before, with a batch that ended the same way, or was started
    by the event from the queue as it then stood. *)

Lemma advance_inflight c tbl batch M d' :
  d' ∈ inflight (advance c tbl batch M) →
  d' ∈ inflight M ∨ ∃ m, batch = m :: rest d' ∧ caller d' = c ∧ table d' = tbl.
Proof.
  destruct batch as [|m todo]; simpl.
  - destruct c; simpl; by left.
  - destruct (dispatch tbl m (world M)) as [w1 [|e]]; simpl.
    + rewrite elem_of_app, list_elem_of_singleton. intros [H| ->]; [by left|].
      right. by exists m.
    + by left.
Qed.

Lemma call_inflight c M d' :
  d' ∈ inflight (call_processUpdates c M) →
  d' ∈ inflight M ∨ rest d' `suffix_of` updateQueue (svc (world M)).
Proof.
  unfold call_processUpdates.
  assert (d' ∈ inflight (settle c Returned M) → d' ∈ inflight M) as Hs
    by (by destruct c).
  destruct (updateQueue (svc (world M))) as [|m q] eqn:Hq; [by left; apply Hs|].
  destruct (schemas (svc (world M))); [|by left; apply Hs].
  intros H. apply advance_inflight in H as [H|(m' & Hb & _)]; [by left|].
  right. injection Hb as -> ->. by apply suffix_cons_r.
Qed.

(** X7: the batch of a drain in flight is never added to.  After any event
    of the loop, every suspended drain is a drain that was suspended before,
    of the same caller and table, with a suffix of its batch still to
    dispatch, or it is a new drain whose batch is a suffix of the queue (the
    queue after the registration, when the event is a registration that
    flushes). *)
Lemma step_batches_shrink e M d' :
  d' ∈ inflight (step e M) →
  (∃ d, d ∈ inflight M ∧ caller d' = caller d ∧ table d' = table d
        ∧ rest d' `suffix_of` rest d)
  ∨ rest d' `suffix_of`
      updateQueue (svc match e with
                       | Register m _ => (enqueue m (world M)).1
                       | _ => world M
                       end).
Proof.
  assert (∀ d, d ∈ inflight M →
            ∃ d0, d0 ∈ inflight M ∧ caller d = caller d0 ∧ table d = table d0
                  ∧ rest d `suffix_of` rest d0) as Hsame.
  { intros d Hd. by exists d. }
  destruct e as [|tbl|m flush| | |i|]; simpl.
  - intros H. left. by apply Hsame.
  - intros H. left. by apply Hsame.
  - destruct (_ && _).
    + intros H. apply call_inflight in H as [H|H]; [left; by apply Hsame|by right].
    + intros H. left. by apply Hsame.
  - intros H. apply call_inflight in H as [H|H]; [left; by apply Hsame|by right].
  - destruct (timer (svc (world M))) as [[|]|];
      try (intros H; left; by apply Hsame).
    intros H. apply call_inflight in H as [H|H]; [left; by apply Hsame|by right].
  - destruct (inflight M !! i) as [d|] eqn:Hi; [|intros H; left; by apply Hsame].
    intros H. apply advance_inflight in H as [H|(m & Hb & Hc & Ht)].
    + left. apply Hsame. simpl in H.
      by apply list_elem_of_delete_inv with i.
    + left. exists d. split; [by apply list_elem_of_lookup_2 with i|].
      split; [done|]. split; [done|]. rewrite Hb. by apply suffix_cons_r.
  - destruct (stale M) as [|k]; [intros H; left; by apply Hsame|].
    intros H. apply call_inflight in H as [H|H]; [left; by apply Hsame|by right].
Qed.

(** *** The timer *)

Lemma filter_delete_other (ds : list Drain) i d :
  ds !! i = Some d → by_timer d = false →
  List.filter by_timer (delete i ds) = List.filter by_timer ds.
Proof.
  revert i. induction ds as [|x ds IH]; intros [|i] H Hd; simpl in *; try done.
  - injection H as ->. by rewrite Hd.
  - rewrite (IH i H Hd). done.
Qed.

Lemma filter_delete_timer (ds : list Drain) i d :
  ds !! i = Some d → by_timer d = true →
  S (length (List.filter by_timer (delete i ds))) = length (List.filter by_timer ds).
Proof.
  revert i. induction ds as [|x ds IH]; intros [|i] H Hd; simpl in *; try done.
  - injection H as ->. by rewrite Hd.
  - destruct (by_timer x); simpl; rewrite (IH i H Hd); done.
Qed.

(** A drain awaited by another caller never touches the timer. *)
Lemma advance_other_ok tbl batch M :
  timer_ok M → timer_ok (advance ByOther tbl batch M).
Proof.
  intros H. destruct batch as [|m batch]; simpl; [done|].
  pose proof (dispatch_svc tbl m (world M)) as Hsvc.
  destruct (dispatch tbl m (world M)) as [w1 [|e]]; simpl in Hsvc.
  - unfold timer_ok, timer_drains in *. simpl. rewrite Hsvc, List.filter_app. simpl.
    by rewrite app_nil_r.
  - unfold timer_ok, timer_drains in *. simpl. by rewrite Hsvc.
Qed.

Lemma call_other_ok M : timer_ok M → timer_ok (call_processUpdates ByOther M).
Proof.
  intros H. unfold call_processUpdates.
  destruct (updateQueue _) as [|m q]; [done|].
  destruct (schemas _); [|done]. by apply advance_other_ok.
Qed.

(** The drain of the timer callback, with the timer fired and no other
    such drain in flight. *)
Lemma advance_timer_ok tbl batch M :
  timer (svc (world M)) = Some Fired → timer_drains M = [] →
  timer_ok (advance ByTimer tbl batch M).
Proof.
  intros Ht Hd. destruct batch as [|m batch]; simpl.
  - unfold timer_ok, timer_drains in *. simpl. unfold refresh. rewrite Ht. done.
  - pose proof (dispatch_svc tbl m (world M)) as Hsvc.
    destruct (dispatch tbl m (world M)) as [w1 [|e]]; simpl in Hsvc.
    + unfold timer_ok, timer_drains in *. simpl. rewrite Hsvc, Ht, List.filter_app, Hd. done.
    + unfold timer_ok, timer_drains in *. simpl. rewrite Hsvc, Ht, Hd. simpl. lia.
Qed.

Lemma call_timer_ok M :
  timer (svc (world M)) = Some Fired → timer_drains M = [] →
  timer_ok (call_processUpdates ByTimer M).
Proof.
  intros Ht Hd. unfold call_processUpdates.
  assert (timer_ok (settle ByTimer Returned M)) as Hsettle.
  { unfold timer_ok, timer_drains in *. simpl. unfold refresh. by rewrite Ht. }
  destruct (updateQueue _) as [|m q]; [done|].
  destruct (schemas _); [|done]. by apply advance_timer_ok.
Qed.

(** Drains leave the count of stale timeouts alone. *)
Lemma advance_stale c tbl batch M : stale (advance c tbl batch M) = stale M.
Proof.
  destruct batch as [|m batch]; simpl.
  - by destruct c.
  - by destruct (dispatch tbl m (world M)) as [w1 [|e]].
Qed.

Lemma call_stale c M : stale (call_processUpdates c M) = stale M.
Proof.
  unfold call_processUpdates.
  assert (stale (settle c Returned M) = stale M) as Hs by (by destruct c).
  destruct (updateQueue _) as [|m q]; [done|].
  destruct (schemas _); [|done]. by rewrite advance_stale.
Qed.

(** Every event but a [start()] keeps [timer_ok], when no stale timeout
    is pending. *)
Lemma step_timer_ok e M :
  is_start e = false → timer_ok M → stale M = 0 →
  timer_ok (step e M) ∧ stale (step e M) = 0.
Proof.
  intros He H Hst. destruct e as [|tbl|m flush| | |i|]; simpl.
  - done.
  - done.
  - assert (timer_ok (set_world (enqueue m (world M)).1 M)) as H1.
    { unfold timer_ok, timer_drains in *. simpl.
      by rewrite enqueue_world; simpl; rewrite push_svc_timer. }
    destruct (_ && _); [|done]. rewrite call_stale. split; [by apply call_other_ok|done].
  - rewrite call_stale. split; [by apply call_other_ok|done].
  - destruct (timer (svc (world M))) as [[|]|] eqn:Ht; try done.
    unfold timer_ok in H. rewrite Ht in H. rewrite call_stale.
    split; [by apply call_timer_ok|done].
  - destruct (inflight M !! i) as [d|] eqn:Hi; [|done].
    rewrite advance_stale. split; [|done].
    destruct (caller d) eqn:Hc.
    + assert (by_timer d = true) as Hd by (unfold by_timer; by rewrite Hc).
      pose proof (filter_delete_timer _ _ _ Hi Hd) as Hlen.
      unfold timer_ok, timer_drains in H.
      destruct (timer (svc (world M))) as [[|]|] eqn:Ht;
        try (rewrite H in Hlen; simpl in Hlen; lia).
      apply advance_timer_ok; [done|].
      unfold timer_drains. simpl.
      destruct (List.filter by_timer (delete i (inflight M))); [done|simpl in Hlen; lia].
    + assert (by_timer d = false) as Hd by (unfold by_timer; by rewrite Hc).
      apply advance_other_ok. unfold timer_ok, timer_drains in *. simpl.
      by rewrite (filter_delete_other _ _ _ Hi Hd).
  - by rewrite Hst.
Qed.

Lemma run_timer_ok es M :
  starts es = 0 → timer_ok M → stale M = 0 →
  timer_ok (run es M) ∧ stale (run es M) = 0.
Proof.
  revert M. induction es as [|e es IH]; intros M Hes H Hst; [done|].
  unfold starts in Hes. simpl in Hes.
  destruct (is_start e) eqn:He; [done|].
  destruct (step_timer_ok e M He H Hst) as [H1 Hst1].
  rewrite run_cons. by apply IH.
Qed.

(** Before [start()] the service has no timer, and no event but
    [start()] gives it one. *)
Lemma step_timer_none e M :
  is_start e = false → timer (svc (world M)) = None →
  timer (svc (world (step e M))) = None.
Proof.
  assert (∀ c tbl batch M', timer (svc (world M')) = None →
            timer (svc (world (advance c tbl batch M'))) = None) as Hadv.
  { intros c tbl batch M' H. destruct batch as [|m batch]; simpl.
    - destruct c; [|done]. simpl. unfold refresh. by rewrite H.
    - pose proof (dispatch_svc tbl m (world M')) as Hsvc.
      destruct (dispatch tbl m (world M')) as [w1 [|e']]; simpl in *; by rewrite Hsvc. }
  assert (∀ c M', timer (svc (world M')) = None →
            timer (svc (world (call_processUpdates c M'))) = None) as Hcall.
  { intros c M' H. unfold call_processUpdates.
    destruct (updateQueue _) as [|m q].
    - destruct c; [|done]. simpl. unfold refresh. by rewrite H.
    - destruct (schemas _); [by apply Hadv|].
      destruct c; [|done]. simpl. unfold refresh. by rewrite H. }
  intros He H. destruct e as [|tbl|m flush| | |i|]; simpl.
  - done.
  - done.
  - assert (timer (svc (world (set_world (enqueue m (world M)).1 M))) = None) as H1.
    { simpl. by rewrite enqueue_world; simpl; rewrite push_svc_timer. }
    destruct (_ && _); [by apply Hcall|done].
  - by apply Hcall.
  - by rewrite H.
  - destruct (inflight M !! i); [by apply Hadv|done].
  - destruct (stale M); [done|]. by apply Hcall.
Qed.

(** A single [start()] on a service without timer: the invariant holds
    in every state reached. *)
Lemma run_single_start es M :
  starts es ≤ 1 → timer (svc (world M)) = None → timer_ok M → stale M = 0 →
  timer_ok (run es M) ∧ stale (run es M) = 0.
Proof.
  revert M. induction es as [|e es IH]; intros M Hes Ht H Hst; [done|].
  unfold starts in Hes. simpl in Hes. rewrite run_cons.
  destruct (is_start e) eqn:He.
  - destruct e; try done. simpl in Hes. apply run_timer_ok.
    + unfold starts. lia.
    + unfold timer_ok, timer_drains in *. simpl. by rewrite Ht in H.
    + simpl. rewrite Ht, Hst. done.
  - destruct (step_timer_ok e M He H Hst) as [H1 Hst1].
    apply IH; [done|by apply step_timer_none|done|done].
Qed.

(** A timer that is [timer_dead] stays so: nothing refreshes it, unless
    [start()] is called again or a stale timeout is pending. *)
Lemma advance_other_dead tbl batch M :
  timer_dead M → timer_dead (advance ByOther tbl batch M).
Proof.
  intros [Ht Hd]. destruct batch as [|m batch]; simpl; [done|].
  pose proof (dispatch_svc tbl m (world M)) as Hsvc.
  destruct (dispatch tbl m (world M)) as [w1 [|e]]; simpl in Hsvc.
  - unfold timer_dead, timer_drains in *. simpl. rewrite Hsvc, List.filter_app, Hd. done.
  - unfold timer_dead, timer_drains in *. simpl. by rewrite Hsvc.
Qed.

Lemma call_other_dead M : timer_dead M → timer_dead (call_processUpdates ByOther M).
Proof.
  intros H. unfold call_processUpdates.
  destruct (updateQueue _) as [|m q]; [done|].
  destruct (schemas _); [|done]. apply advance_other_dead.
  destruct H as [Ht Hd]. by split.
Qed.

Lemma step_timer_dead e M :
  is_start e = false → timer_dead M → stale M = 0 →
  timer_dead (step e M) ∧ stale (step e M) = 0.
Proof.
  intros He H Hst. destruct e as [|tbl|m flush| | |i|]; simpl.
  - done.
  - done.
  - assert (timer_dead (set_world (enqueue m (world M)).1 M)) as H1.
    { destruct H as [Ht Hd]. split; [|done]. simpl.
      by rewrite enqueue_world; simpl; rewrite push_svc_timer. }
    destruct (_ && _); [|done]. rewrite call_stale. split; [by apply call_other_dead|done].
  - rewrite call_stale. split; [by apply call_other_dead|done].
  - destruct H as [Ht Hd]. by rewrite Ht.
  - destruct (inflight M !! i) as [d|] eqn:Hi; [|done].
    rewrite advance_stale. split; [|done].
    destruct H as [Ht Hd].
    destruct (by_timer d) eqn:Hb.
    + pose proof (filter_delete_timer _ _ _ Hi Hb) as Hlen.
      unfold timer_drains in Hd. rewrite Hd in Hlen. done.
    + assert (caller d = ByOther) as -> by (unfold by_timer in Hb; by destruct (caller d)).
      apply advance_other_dead. split; [done|].
      unfold timer_drains in *. simpl. by rewrite (filter_delete_other _ _ _ Hi Hb).
  - by rewrite Hst.
Qed.

(** A fired timer does not fire. *)
Lemma step_fired M : timer (svc (world M)) = Some Fired → step TimerFires M = M.
Proof. intros H. unfold step. by rewrite H. Qed.

Lemma run_timer_dead es M :
  starts es = 0 → timer_dead M → stale M = 0 →
  timer_dead (run es M) ∧ stale (run es M) = 0.
Proof.
  revert M. induction es as [|e es IH]; intros M Hes H Hst; [done|].
  unfold starts in Hes. simpl in Hes.
  destruct (is_start e) eqn:He; [done|].
  destruct (step_timer_dead e M He H Hst) as [H1 Hst1].
  rewrite run_cons. by apply IH.
Qed.

(** No event clears the timer. *)
Lemma step_timer_started e M :
  timer (svc (world M)) ≠ None → timer (svc (world (step e M))) ≠ None.
Proof.
  assert (∀ c tbl batch M', timer (svc (world M')) ≠ None →
            timer (svc (world (advance c tbl batch M'))) ≠ None) as Hadv.
  { intros c tbl batch M' H. destruct batch as [|m batch]; simpl.
    - destruct c; [|done]. simpl. unfold refresh. by destruct (timer _).
    - pose proof (dispatch_svc tbl m (world M')) as Hsvc.
      destruct (dispatch tbl m (world M')) as [w1 [|e']]; simpl in *; by rewrite Hsvc. }
  assert (∀ c M', timer (svc (world M')) ≠ None →
            timer (svc (world (call_processUpdates c M'))) ≠ None) as Hcall.
  { intros c M' H. unfold call_processUpdates.
    destruct (updateQueue _) as [|m q].
    - destruct c; [|done]. simpl. unfold refresh. by destruct (timer _).
    - destruct (schemas _); [by apply Hadv|].
      destruct c; [|done]. simpl. unfold refresh. by destruct (timer _). }
  intros H. destruct e as [|tbl|m flush| | |i|]; simpl.
  - done.
  - done.
  - assert (timer (svc (world (set_world (enqueue m (world M)).1 M))) ≠ None) as H1.
    { simpl. by rewrite enqueue_world; simpl; rewrite push_svc_timer. }
    destruct (_ && _); [by apply Hcall|done].
  - by apply Hcall.
  - destruct (timer (svc (world M))) as [[|]|] eqn:Ht; try done.
    + by apply Hcall.
    + by rewrite Ht.
  - destruct (inflight M !! i); [by apply Hadv|done].
  - destruct (stale M); [done|]. by apply Hcall.
Qed.

Lemma run_timer_started es M :
  timer (svc (world M)) ≠ None → timer (svc (world (run es M))) ≠ None.
Proof.
  revert M. induction es as [|e es IH]; intros M H; [done|].
  apply IH, step_timer_started, H.
Qed.

End EventLoopFacts.

(** ** SchemaService: the claims *)

Section SchemaServiceClaims.

Context {Store : Type}.
Implicit Types (M : Machine Store) (w : World Store) (s : SchemaService Store).
Implicit Types (m : SchemaMapping).

Lemma processUpdates_owned w : owned (svc (processUpdates w).1) = owned (svc w).
Proof.
  unfold processUpdates. destruct (updateQueue (svc w)) as [|m q]; [done|].
  destruct (schemas (svc w)); [|done]. by rewrite drain_svc.
Qed.

(** With the table resolved, the batch of [processUpdates] is the queue. *)
Lemma processUpdates_resolved w tbl :
  schemas (svc w) = Some tbl →
  processUpdates w = drain tbl (updateQueue (svc w)) (set_svc (set_queue [] (svc w)) w).
Proof.
  intros Hs. unfold processUpdates. rewrite Hs.
  destruct (updateQueue (svc w)) as [|m q] eqn:Hq; [|done].
  destruct w as [[p t q sc hs o] st lg]. simpl in *. by subst.
Qed.

Lemma registerMapping_owned m flush w :
  owned (svc (registerMapping m flush w)) = owned (claim m (svc w)).
Proof.
  unfold registerMapping.
  assert (owned (svc (enqueue m w).1) = owned (claim m (svc w))) as H.
  { rewrite enqueue_world. simpl. unfold push_svc. by destruct (ownerMatches _ _). }
  destruct (_ && _); [by rewrite processUpdates_owned|done].
Qed.

Lemma claim_owners_defined m s : owners_defined s → owners_defined (claim m s).
Proof.
  intros H. unfold claim.
  destruct (isOwnerUndefined s m || isSchemaChanged s m) eqn:E; [|done].
  assert (owner m ≠ None) as Hm.
  { unfold isOwnerUndefined, isSchemaChanged in E. by destruct (owner m), (owned_get s m). }
  intros k m'. simpl. rewrite lookup_insert. case_decide.
  - intros [= <-]. done.
  - apply H.
Qed.

Lemma registerMapping_owners_defined m flush w :
  owners_defined (svc w) → owners_defined (svc (registerMapping m flush w)).
Proof.
  intros H k m'. rewrite registerMapping_owned. by apply claim_owners_defined.
Qed.

(** C1 (amended): for a URI present in the ownership table with recorded
    claim [rec], a mapping whose owner differs from the recorded owner is
    never admitted through the [isOwnerUndefined] rule (the URI is
    claimed).  It is pushed onto the update queue exactly when the
    [isSchemaChanged] rule holds, that is when it names an owner and its
    schema differs from the recorded one; it then replaces the recorded
    claim.  Otherwise [registerMapping] changes nothing at all: the
    mapping is silently ignored. *)
Theorem C1_other_owner_enqueued_iff_schema_changed w m rec flush :
  owned_get (svc w) m = Some rec →
  owner m ≠ owner rec →
  isOwnerUndefined (svc w) m = false
  ∧ (enqueue m w).2 = isSchemaChanged (svc w) m
  ∧ isSchemaChanged (svc w) m
    = defined (owner m) && negb (schema_strict_eq (schema rec) (schema m))
  ∧ (isSchemaChanged (svc w) m = true →
       owned_get (svc (enqueue m w).1) m = Some m
       ∧ updateQueue (svc (enqueue m w).1) = updateQueue (svc w) ++ [m])
  ∧ (isSchemaChanged (svc w) m = false → registerMapping m flush w = w).
Proof.
  intros Hrec Hne.
  assert (isOwnerUndefined (svc w) m = false) as Hund
    by (by apply isOwnerUndefined_owned with rec).
  split; [done|].
  assert (isSchemaChanged (svc w) m = false → claim m (svc w) = svc w) as Hkeep.
  { intros Hc. unfold claim. by rewrite Hund, Hc. }
  assert (isSchemaChanged (svc w) m = false → (enqueue m w).2 = false) as Hno.
  { intros Hc. rewrite enqueue_pushed, (Hkeep Hc). unfold ownerMatches. rewrite Hrec.
    simpl. unfold owner_strict_eq. by apply bool_decide_eq_false. }
  repeat split.
  - destruct (isSchemaChanged (svc w) m) eqn:Hc; [|by apply Hno].
    rewrite enqueue_pushed. apply ownerMatches_claimed. by rewrite Hc, orb_true_r.
  - unfold isSchemaChanged. by rewrite Hrec.
  - rewrite enqueue_world. simpl. unfold push_svc.
    rewrite ownerMatches_claimed by (by rewrite H, orb_true_r).
    apply owned_get_claimed. by rewrite H, orb_true_r.
  - rewrite enqueue_world. simpl. rewrite push_svc_queue.
    by rewrite ownerMatches_claimed by (by rewrite H, orb_true_r).
  - intros Hc. unfold registerMapping. rewrite (Hno Hc). simpl.
    rewrite enqueue_world. unfold push_svc.
    rewrite <- enqueue_pushed, (Hno Hc), (Hkeep Hc). apply set_svc_id.
Qed.


(** C8: when the drain reaches a mapping whose type has no registered
    handler, [processUpdates] throws.  The batch had been removed from the
    queue, the mappings before the failure point have been dispatched, and
    the mapping without handler and those after it are neither dispatched
    nor queued any more. *)
Theorem C8_missing_handler_aborts_batch w tbl pre m post :
  schemas (svc w) = Some tbl →
  updateQueue (svc w) = pre ++ m :: post →
  handlers_return (svc w) pre →
  handlers (svc w) (type m) = None →
  (processUpdates w).2 = Threw (no_handler_message (type m))
  ∧ updateQueue (svc (processUpdates w).1) = []
  ∧ log (processUpdates w).1 = log w ++ (handle_line <$> pre)
  ∧ (processUpdates w).1 = (drain tbl pre (set_svc (set_queue [] (svc w)) w)).1.
Proof.
  intros Hs Hq Hpre Hm.
  rewrite (processUpdates_resolved w tbl Hs), Hq.
  rewrite drain_app.
  set (w0 := set_svc (set_queue [] (svc w)) w).
  destruct (drain_returns tbl pre w0 Hpre) as [Hc Hl].
  pose proof (drain_svc tbl pre w0) as Hsvc.
  destruct (drain tbl pre w0) as [w1 c]. simpl in *. subst c.
  unfold dispatch. rewrite Hsvc. simpl. rewrite Hm. simpl.
  by rewrite Hsvc, Hl.
Qed.

(** C10: every claim recorded in the ownership table names its owner.
    The table of a new service is empty, both claim rules of
    [registerMapping] ask for [mapping.owner !== undefined], and nothing
    else writes the table; so the property holds after any series of
    calls.  The schema of a recorded claim can be absent: a removal mapping
    of the owner is a schema change and is recorded. *)
Theorem C10_recorded_claims_name_their_owner
    (opt_schemas : option Schemas) (opt_period : option nat)
    (hs : SchemaType → option (SchemaHandler Store)) (st : Store) (lg : list LogLine) :
  let w0 := mkWorld (new_SchemaService opt_schemas opt_period hs) st lg in
  (∀ calls : list (SchemaMapping * option bool),
     owners_defined (svc (foldl (λ w c, registerMapping c.1 c.2 w) w0 calls)))
  ∧ (∃ (calls : list (SchemaMapping * option bool)) k m,
       owned (svc (foldl (λ w c, registerMapping c.1 c.2 w) w0 calls)) !! k = Some m
       ∧ schema m = None).
Proof.
  intros w0. split.
  - intros calls.
    assert (owners_defined (svc w0)) as H0 by (intros k m; simpl; by rewrite lookup_empty).
    revert H0. generalize w0. clear w0.
    induction calls as [|c calls IH]; intros w H; [done|].
    simpl. apply IH. by apply registerMapping_owners_defined.
  - exists [(byA_cfn, None); (byA_removal, None)], 1%positive, byA_removal.
    split; [|done]. cbn [foldl fst snd].
    set (w1 := registerMapping byA_cfn None w0).
    assert (owned_get (svc w1) byA_removal = Some byA_cfn) as H1.
    { unfold owned_get, w1. rewrite registerMapping_owned.
      apply (owned_get_claimed byA_cfn (svc w0)).
      unfold isOwnerUndefined, owned_get.
      change (owned (svc w0)) with (∅ : gmap positive SchemaMapping).
      by rewrite lookup_empty. }
    rewrite registerMapping_owned.
    apply (owned_get_claimed byA_removal (svc w1)).
    unfold isOwnerUndefined, isSchemaChanged. by rewrite H1.
Qed.


Lemma call_processUpdates_resolved c M tbl :
  schemas (svc (world M)) = Some tbl → updateQueue (svc (world M)) ≠ [] →
  call_processUpdates c M
  = advance c tbl (updateQueue (svc (world M)))
      (set_world (set_svc (set_queue [] (svc (world M))) (world M)) M).
Proof.
  intros Hs Hq. unfold call_processUpdates. rewrite Hs.
  by destruct (updateQueue (svc (world M))).
Qed.

(** One drain from its call to its end, with registrations at its awaits. *)
Lemma drain_interleaved c M tbl (regs : list (list SchemaMapping)) :
  inflight M = [] →
  schemas (svc (world M)) = Some tbl →
  updateQueue (svc (world M)) ≠ [] →
  length regs = length (updateQueue (svc (world M))) →
  run (regs ≫= λ ms, ((λ m, Register m None) <$> ms) ++ [Resume 0])
      (call_processUpdates c M)
  = settle c (processUpdates (world M)).2
      (mkMachine
         (mkWorld (regs_svc (concat regs) (set_queue [] (svc (world M))))
                  (store (processUpdates (world M)).1)
                  (log (processUpdates (world M)).1))
         [] (rejected M) (stale M)).
Proof.
  intros HM Hs Hq Hlen.
  rewrite (call_processUpdates_resolved c M tbl Hs Hq).
  rewrite advance_interleaved by done.
  by rewrite (processUpdates_resolved (world M) tbl Hs).
Qed.


(** C9 (amended): from a service whose timer has not been started, in
    every state the event loop reaches when [start()] is called at most
    once: the timer callback has at most one drain in flight, and while it
    has one the timer is fired and cannot fire, so the drains started by the
    timer do not overlap; when the awaited [processUpdates] returns - at
    once, because the queue is empty or the table absent, or at the
    resumption that finds the batch finished, or after a whole drain with
    registrations at its awaits whose handlers all return - the timer is
    refreshed and pending again; and no event, a further [start()]
    included, clears a timer that was started. *)
Theorem C9_timer_refreshed_when_drain_returns M0 (es : list Event) :
  timer (svc (world M0)) = None →
  inflight M0 = [] →
  stale M0 = 0 →
  starts es ≤ 1 →
  let M := run es M0 in
  length (timer_drains M) ≤ 1
  ∧ (timer_drains M ≠ [] → timer (svc (world M)) = Some Fired ∧ step TimerFires M = M)
  ∧ (timer (svc (world M)) = Some Pending →
     updateQueue (svc (world M)) = [] ∨ schemas (svc (world M)) = None →
     step TimerFires M = M)
  ∧ (∀ i d, inflight M !! i = Some d → caller d = ByTimer → rest d = [] →
       timer (svc (world (step (Resume i) M))) = Some Pending)
  ∧ (∀ tbl (regs : list (list SchemaMapping)),
       timer (svc (world M)) = Some Pending → inflight M = [] →
       schemas (svc (world M)) = Some tbl → updateQueue (svc (world M)) ≠ [] →
       length regs = length (updateQueue (svc (world M))) →
       handlers_return (svc (world M)) (updateQueue (svc (world M))) →
       let M' := run (TimerFires ::
                        (regs ≫= λ ms, ((λ m, Register m None) <$> ms) ++ [Resume 0])) M in
       timer (svc (world M')) = Some Pending ∧ inflight M' = [])
  ∧ (∀ es', timer (svc (world M)) ≠ None → timer (svc (world (run es' M))) ≠ None).
Proof.
  intros Ht0 Hi0 Hst0 Hes M.
  assert (timer_ok M) as Hok.
  { apply run_single_start; [done|done| |done].
    unfold timer_ok, timer_drains. by rewrite Ht0, Hi0. }
  assert (timer_drains M ≠ [] → timer (svc (world M)) = Some Fired) as Hfired.
  { intros Hne. unfold timer_ok in Hok.
    by destruct (timer (svc (world M))) as [[|]|]. }
  split; [|split; [|split; [|split; [|split]]]].
  - unfold timer_ok in Hok.
    destruct (timer (svc (world M))) as [[|]|];
      [rewrite Hok; simpl; lia|done|rewrite Hok; simpl; lia].
  - intros Hne. split; [by apply Hfired|]. unfold step. by rewrite (Hfired Hne).
  - intros Hp Hq. unfold step. rewrite Hp. unfold call_processUpdates. simpl.
    assert (settle ByTimer Returned
              (set_world (set_svc (set_timer (Some Fired) (svc (world M))) (world M)) M)
            = M) as Hsettle.
    { destruct M as [[[p t q sc hs o] st lg] ds rj k]. simpl in *. by subst. }
    destruct (updateQueue (svc (world M))) as [|m q]; [done|].
    destruct Hq as [Hq|Hq]; [done|]. by rewrite Hq.
  - intros i d Hd Hc Hr. unfold step. rewrite Hd, Hc, Hr. simpl.
    assert (timer (svc (world M)) = Some Fired) as Ht.
    { apply Hfired. intros Hnil.
      assert (d ∈ timer_drains M) as Hin.
      { unfold timer_drains. apply list_elem_of_In, List.filter_In.
        split; [by apply list_elem_of_In, list_elem_of_lookup_2 with i|].
        unfold by_timer. by rewrite Hc. }
      rewrite Hnil in Hin. by apply elem_of_nil in Hin. }
    unfold refresh. by rewrite Ht.
  - intros tbl regs Hp Hi Hs Hq Hlen Hret M'.
    set (M1 := set_world (set_svc (set_timer (Some Fired) (svc (world M))) (world M)) M).
    assert (M' = run (regs ≫= λ ms, ((λ m, Register m None) <$> ms) ++ [Resume 0])
                   (call_processUpdates ByTimer M1)) as ->.
    { unfold M'. rewrite run_cons. unfold step. by rewrite Hp. }
    rewrite (drain_interleaved ByTimer M1 tbl regs) by done.
    assert ((processUpdates (world M1)).2 = Returned) as ->.
    { rewrite (processUpdates_resolved (world M1) tbl Hs).
      by destruct (drain_returns tbl (updateQueue (svc (world M1)))
                     (set_svc (set_queue [] (svc (world M1))) (world M1)) Hret). }
    simpl. unfold refresh. simpl. by rewrite regs_svc_timer.
  - intros es'. apply run_timer_started.
Qed.

End SchemaServiceClaims.

(** ** SchemaService: the claims at concrete inputs *)

(** C1 as stated fails: [doc1] is claimed by [featureA] with schema [cfn];
    the mapping of [featureB] with schema [sam] does not fall under the
    [isOwnerUndefined] rule, and yet it is pushed onto the queue and
    replaces the recorded claim. *)
Lemma C1_counterexample :
  owned_get (svc world_owned_by_A) byB_sam = Some byA_cfn
  ∧ owner byB_sam ≠ owner byA_cfn
  ∧ isOwnerUndefined (svc world_owned_by_A) byB_sam = false
  ∧ updateQueue (svc (registerMapping byB_sam None world_owned_by_A))
    = updateQueue (svc world_owned_by_A) ++ [byB_sam]
  ∧ owned_get (svc (registerMapping byB_sam None world_owned_by_A)) byB_sam = Some byB_sam.
Proof. repeat split; try reflexivity. discriminate. Qed.

(** The statement of C1 at the claim of [featureB] on the document that
    [featureA] owns. *)
Lemma C1_witness :
  owned_get (svc world_owned_by_A) byB_sam = Some byA_cfn
  ∧ owner byB_sam ≠ owner byA_cfn
  ∧ isOwnerUndefined (svc world_owned_by_A) byB_sam = false
  ∧ (enqueue byB_sam world_owned_by_A).2 = isSchemaChanged (svc world_owned_by_A) byB_sam
  ∧ isSchemaChanged (svc world_owned_by_A) byB_sam
    = defined (owner byB_sam) && negb (schema_strict_eq (schema byA_cfn) (schema byB_sam))
  ∧ (isSchemaChanged (svc world_owned_by_A) byB_sam = true →
       owned_get (svc (enqueue byB_sam world_owned_by_A).1) byB_sam = Some byB_sam
       ∧ updateQueue (svc (enqueue byB_sam world_owned_by_A).1)
         = updateQueue (svc world_owned_by_A) ++ [byB_sam])
  ∧ (isSchemaChanged (svc world_owned_by_A) byB_sam = false →
       registerMapping byB_sam None world_owned_by_A = world_owned_by_A).
Proof.
  split; [reflexivity|]. split; [discriminate|].
  apply (C1_other_owner_enqueued_iff_schema_changed world_owned_by_A byB_sam byA_cfn None);
    [reflexivity|discriminate].
Defined.




(** The statement of C8 at a batch of three whose second mapping has no
    handler: the first is dispatched, the other two are gone. *)
Lemma C8_witness :
  schemas (svc world_json_only) = Some table0
  ∧ updateQueue (svc world_json_only) = [byA_cfn] ++ yaml_doc2 :: [byA_removal]
  ∧ handlers_return (svc world_json_only) [byA_cfn]
  ∧ handlers (svc world_json_only) (type yaml_doc2) = None
  ∧ (processUpdates world_json_only).2 = Threw (no_handler_message yaml)
  ∧ updateQueue (svc (processUpdates world_json_only).1) = []
  ∧ store (processUpdates world_json_only).1 = [byA_cfn].
Proof.
  assert (handlers_return (svc world_json_only) [byA_cfn]) as Hret.
  { repeat constructor. exists recorder. split; reflexivity. }
  do 2 (split; [reflexivity|]). split; [exact Hret|]. split; [reflexivity|].
  destruct (C8_missing_handler_aborts_batch world_json_only table0 [byA_cfn] yaml_doc2
              [byA_removal] eq_refl eq_refl Hret eq_refl) as (Hc & Hq & _ & Hw).
  split; [exact Hc|]. split; [exact Hq|]. rewrite Hw. reflexivity.
Defined.

(** C9 as stated fails: the timer of a service started once is pending,
    the queue holds a ['yaml'] mapping, and the handler map binds only
    ['json'].  When the timer fires, [processUpdates] throws, the callback
    ends before [refresh()], and from then on the timer stays fired whatever
    happens, short of another [start()]: it never fires again. *)
Lemma C9_counterexample :
  timer (svc (world machine_json_only)) = Some Pending
  ∧ stale machine_json_only = 0
  ∧ updateQueue (svc (world machine_json_only)) = [yaml_doc2]
  ∧ rejected (step TimerFires machine_json_only) = [no_handler_message yaml]
  ∧ inflight (step TimerFires machine_json_only) = []
  ∧ ∀ es, starts es = 0 →
          timer (svc (world (run es (step TimerFires machine_json_only)))) = Some Fired
          ∧ step TimerFires (run es (step TimerFires machine_json_only))
            = run es (step TimerFires machine_json_only).
Proof.
  do 5 (split; [reflexivity|]). intros es Hes.
  assert (timer_dead (run es (step TimerFires machine_json_only))) as [Ht _].
  { apply run_timer_dead; [done|split; reflexivity|reflexivity]. }
  split; [exact Ht|]. by apply step_fired.
Qed.

(** Why [start()] must not be called twice: [startTimer] arms a new
    timeout whatever the state of the one before.  Called again while the
    callback of the first timeout awaits its drain, it lets the new timeout
    fire, and two drains of the timer callback are in flight at once. *)
Example start_twice_overlapping_drains :
  starts [Start; SchemasResolved table0; Register byA_cfn None; TimerFires;
          Start; Register byB_sam None; TimerFires] = 2
  ∧ length (timer_drains
              (run [Start; SchemasResolved table0; Register byA_cfn None; TimerFires;
                    Start; Register byB_sam None; TimerFires] machine_new)) = 2
  ∧ stale (run [Start; Start] machine_new) = 1
  ∧ length (timer_drains
              (run [Start; Start; SchemasResolved table0; Register byA_cfn None;
                    StaleTimerFires; Register byB_sam None; TimerFires] machine_new)) = 2.
Proof. repeat split. Qed.

(** The statement of C9 at a new service that is started and whose timer
    fires once. *)
Lemma C9_witness :
  timer (svc (world machine_new)) = None
  ∧ inflight machine_new = []
  ∧ stale machine_new = 0
  ∧ starts [Start; SchemasResolved table0; Register byA_cfn None; TimerFires] ≤ 1
  ∧ length (timer_drains
              (run [Start; SchemasResolved table0; Register byA_cfn None; TimerFires]
                   machine_new)) ≤ 1.
Proof.
  do 3 (split; [reflexivity|]). split; [unfold starts; simpl; lia|].
  apply (C9_timer_refreshed_when_drain_returns machine_new
           [Start; SchemasResolved table0; Register byA_cfn None; TimerFires]);
    [reflexivity|reflexivity|reflexivity|unfold starts; simpl; lia].
Defined.

(** ** Registering a mapping twice *)

Section RegisterTwice.

Context {Store : Type}.
Implicit Types (w : World Store) (s : SchemaService Store) (m : SchemaMapping).

Lemma schema_strict_eq_refl (o : option SchemaRef) : schema_strict_eq o o = true.
Proof. destruct o as [[x|u]|]; simpl; try done; by apply bool_decide_eq_true. Qed.

Lemma registerMapping_no_flush m w :
  registerMapping m None w = set_svc (push_svc m (svc w)) w.
Proof.
  unfold registerMapping. rewrite bool_decide_eq_false_2 by done.
  by rewrite andb_false_r, enqueue_world.
Qed.

(** The claim rules read the ownership table and nothing else. *)
Lemma claim_set_queue m s q : claim m (set_queue q s) = set_queue q (claim m s).
Proof.
  unfold claim.
  change (isOwnerUndefined (set_queue q s) m) with (isOwnerUndefined s m).
  change (isSchemaChanged (set_queue q s) m) with (isSchemaChanged s m).
  by destruct (_ || _).
Qed.

(** Once a mapping went through the claim rules, it passes them unchanged. *)
Lemma claim_idempotent m s : claim m (claim m s) = claim m s.
Proof.
  destruct (isOwnerUndefined s m || isSchemaChanged s m) eqn:E.
  - assert (claim m s = set_owned (<[uri_id (uri m) := m]> (owned s)) s) as ->
      by (unfold claim; by rewrite E).
    unfold claim, isOwnerUndefined, isSchemaChanged, owned_get. simpl.
    rewrite lookup_insert_eq. simpl. rewrite schema_strict_eq_refl.
    by rewrite andb_false_r.
  - assert (claim m s = s) as -> by (unfold claim; by rewrite E).
    unfold claim. by rewrite E.
Qed.

Lemma ownerMatches_set_queue m s q : ownerMatches (set_queue q s) m = ownerMatches s m.
Proof. done. Qed.

Lemma push_svc_admitted m s q :
  ownerMatches (claim m s) m = true →
  push_svc m (set_queue q (claim m s)) = set_queue (q ++ [m]) (claim m s).
Proof.
  intros Ha. unfold push_svc.
  by rewrite claim_set_queue, claim_idempotent, ownerMatches_set_queue, Ha.
Qed.

Lemma push_svc_first m s :
  ownerMatches (claim m s) m = true →
  push_svc m s = set_queue (updateQueue s ++ [m]) (claim m s).
Proof. intros Ha. unfold push_svc. by rewrite Ha, claim_queue. Qed.

Lemma push_svc_ignored m s :
  ownerMatches (claim m s) m = false → push_svc m s = s.
Proof.
  intros Ha.
  assert (claim m s = s) as Hc.
  { unfold claim. destruct (isOwnerUndefined s m || isSchemaChanged s m) eqn:E; [|done].
    by rewrite (ownerMatches_claimed m s E) in Ha. }
  unfold push_svc. by rewrite Ha.
Qed.

Lemma push_svc_ignored_queue m s q :
  ownerMatches (claim m s) m = false → push_svc m (set_queue q s) = set_queue q s.
Proof.
  intros Ha. apply push_svc_ignored.
  by rewrite claim_set_queue, ownerMatches_set_queue.
Qed.

(** With the table resolved, [processUpdates] drains the queue it finds. *)
Lemma processUpdates_queue w s q tbl :
  schemas s = Some tbl →
  processUpdates (set_svc (set_queue q s) w) = drain tbl q (set_svc (set_queue [] s) w).
Proof. intros Hs. by rewrite (processUpdates_resolved _ tbl). Qed.

(** Enqueuing [m] twice and draining once against draining after each
    enqueue, when the mappings queued before dispatch without a throw and
    the handler of [m] returns. *)
Lemma register_twice_drain_once w m tbl :
  schemas (svc w) = Some tbl →
  (processUpdates w).2 = Returned →
  handlers_return (svc w) [m] →
  (processUpdates (registerMapping m None (registerMapping m None w))).1
  = (processUpdates
       (registerMapping m None (processUpdates (registerMapping m None w)).1)).1
  ∧ (ownerMatches (claim m (svc w)) m = true →
       (processUpdates (registerMapping m None (registerMapping m None w))).1
       = (drain tbl [m; m]
            (set_svc (set_queue [] (claim m (svc w))) (processUpdates w).1)).1).
Proof.
  intros Hs Hq Hm.
  rewrite !registerMapping_no_flush.
  change (svc (set_svc ?a w)) with a.
  change (set_svc ?a (set_svc ?b w)) with (set_svc a w).
  rewrite (processUpdates_resolved w tbl Hs) in Hq |- *.
  set (q := updateQueue (svc w)) in *.
  set (s0 := svc w) in *.
  set (wq := (drain tbl q (set_svc (set_queue [] s0) w)).1) in *.
  assert (svc wq = set_queue [] s0) as Hwq by apply drain_svc.
  destruct (ownerMatches (claim m s0) m) eqn:Ha.
  - pose proof (push_svc_first m s0 Ha) as Hp1. fold q in Hp1.
    pose proof (push_svc_admitted m s0 (q ++ [m]) Ha) as Hp2.
    pose proof (push_svc_admitted m s0 [] Ha) as Hp0.
    set (c := claim m s0) in *.
    set (e := set_queue [] c) in *.
    assert (schemas c = Some tbl) as Hsc by (unfold c; by rewrite claim_schemas).
    assert (handlers e = handlers s0) as Hh by apply claim_handlers.
    assert (drain tbl q (set_svc e w) = (set_svc e wq, Returned)) as Hd.
    { assert (set_svc e w = set_svc e (set_svc (set_queue [] s0) w)) as -> by done.
      rewrite drain_frame by done. by rewrite Hq. }
    assert (handlers_return (svc (set_svc e wq)) [m]) as Hm'.
    { unfold handlers_return in *. change (svc (set_svc e wq)) with e. by rewrite Hh. }
    destruct (drain_returns tbl [m] (set_svc e wq) Hm') as [Hc1 _].
    pose proof (drain_svc tbl [m] (set_svc e wq)) as Hs1.
    destruct (drain tbl [m] (set_svc e wq)) as [w1 c1] eqn:E1.
    cbn [fst snd] in Hc1, Hs1. subst c1. change (svc (set_svc e wq)) with e in Hs1.
    rewrite Hp1, Hp2.
    assert ((processUpdates (set_svc (set_queue ((q ++ [m]) ++ [m]) c) w)).1
            = (drain tbl [m; m] (set_svc e wq)).1) as HA.
    { rewrite (processUpdates_queue w c _ tbl Hsc). fold e.
      rewrite <- app_assoc, drain_app, Hd. done. }
    split; [|by intros _].
    rewrite HA.
    rewrite (processUpdates_queue w c _ tbl Hsc). fold e.
    rewrite drain_app, Hd, E1. cbn [fst]. rewrite Hs1.
    rewrite Hp0.
    rewrite (processUpdates_queue w1 c _ tbl Hsc). fold e.
    assert (set_svc e w1 = w1) as -> by (rewrite <- Hs1; apply set_svc_id).
    change [m; m] with ([m] ++ [m]). by rewrite drain_app, E1.
  - split; [|done].
    rewrite !(push_svc_ignored m s0 Ha).
    unfold s0 at 1 2 3. rewrite set_svc_id, (processUpdates_resolved w tbl Hs).
    change (drain tbl (updateQueue (svc w)) (set_svc (set_queue [] (svc w)) w)).1 with wq.
    rewrite Hwq, push_svc_ignored_queue by done.
    rewrite <- Hwq, set_svc_id. unfold processUpdates. by rewrite Hwq.
Qed.

Lemma dispatch_handled tbl m w h :
  handlers (svc w) (type m) = Some h →
  dispatch tbl m w
  = (set_store (handleUpdate h m tbl (store w)).1 (add_log (handle_line m) w),
     (handleUpdate h m tbl (store w)).2).
Proof. intros H. unfold dispatch. by rewrite H. Qed.

(** The store after two dispatches of a mapping whose handler returns. *)
Lemma drain_twice_store tbl m w h :
  handlers (svc w) (type m) = Some h →
  (∀ st, (handleUpdate h m tbl st).2 = Returned) →
  store (drain tbl [m; m] w).1
  = (handleUpdate h m tbl (handleUpdate h m tbl (store w)).1).1.
Proof.
  intros Hh Hret. cbn [drain].
  rewrite (dispatch_handled tbl m w h Hh), Hret.
  rewrite (dispatch_handled tbl m _ h) by done.
  by rewrite Hret.
Qed.

End RegisterTwice.

(** ** JsonSchemaHandler *)

Section JsonSchemaHandlerFacts.

Variable normalize : string → string.
Variable normalizeVSCodeUri : Uri → string.

Abbreviation json_handleUpdate normalize normalizeVSCodeUri := (json_handleUpdate normalize normalizeVSCodeUri).
Abbreviation getSettingBy normalize := (getSettingBy normalize).

Lemma json_handleUpdate_returns m tbl st : (json_handleUpdate normalize normalizeVSCodeUri m tbl st).2 = Returned.
Proof.
  unfold json_handleUpdate.
  destruct (schema_if_truthy (schema m)) as [r|]; [|done].
  destruct (resolveSchema r tbl); [|done].
  by destruct (getSettingBy _ _ _ _).
Qed.

Lemma cleaned_clean st : cleaned (clean st) = true.
Proof. unfold clean. by destruct (cleaned st) eqn:E. Qed.

Lemma clean_cleaned st : cleaned st = true → clean st = st.
Proof. intros H. unfold clean. by rewrite H. Qed.

Lemma findIndex_lookup {A} (f : A → bool) l i :
  findIndex f l = Some i → ∃ x, l !! i = Some x ∧ f x = true.
Proof.
  revert i. induction l as [|x l IH]; intros i H; simpl in *; [done|].
  destruct (f x) eqn:E.
  - injection H as <-. by exists x.
  - destruct (findIndex f l) as [j|]; [|done]. injection H as <-. by apply IH.
Qed.

Lemma findIndex_insert {A} (f : A → bool) l i x y :
  l !! i = Some x → f y = f x → findIndex f (<[i := y]> l) = findIndex f l.
Proof.
  revert i. induction l as [|z l IH]; intros [|i] H Hf; simpl in *; try done.
  - injection H as ->. by rewrite Hf.
  - by rewrite (IH i H Hf).
Qed.

Lemma findIndex_app_new {A} (f : A → bool) l x :
  findIndex f l = None → f x = true → findIndex f (l ++ [x]) = Some (length l).
Proof.
  intros H Hx. induction l as [|z l IH]; simpl in *; [by rewrite Hx|].
  destruct (f z); [done|].
  destruct (findIndex f l); [done|]. by rewrite IH.
Qed.

Lemma findIndex_push_fileMatch schm i p settings :
  findIndex (setting_matches normalize schm None) (push_fileMatch i p settings)
  = findIndex (setting_matches normalize schm None) settings.
Proof.
  unfold push_fileMatch.
  destruct (settings !! i) as [e|] eqn:E; [|done].
  destruct (fileMatch e); [|done].
  by apply findIndex_insert with e.
Qed.

(** An entry made for a schema URI is found by that URI. *)
Lemma setting_matches_new u fm :
  setting_matches normalize (Some u) None (mkSetting fm (Some u) None) = true.
Proof.
  unfold setting_matches. simpl. destruct (truthy u); [|done]. simpl.
  by rewrite String.eqb_refl.
Qed.

Lemma push_fileMatch_new settings p q u :
  push_fileMatch (length settings) q (settings ++ [mkSetting (Some p) (Some u) None])
  = settings ++ [mkSetting (Some (p ++ [q])) (Some u) None].
Proof.
  unfold push_fileMatch.
  rewrite lookup_app_r, Nat.sub_diag by lia. simpl.
  rewrite insert_app_r_alt, Nat.sub_diag by lia. done.
Qed.

Lemma push_fileMatch_twice settings i e fm p :
  settings !! i = Some e → fileMatch e = Some fm →
  push_fileMatch i p (push_fileMatch i p settings)
  = <[i := set_fileMatch (Some (fm ++ [p; p])) e]> settings.
Proof.
  intros He Hfm. unfold push_fileMatch. rewrite He, Hfm.
  assert (i < length settings) as Hi by (by apply lookup_lt_Some with e).
  rewrite list_lookup_insert_eq by done. simpl.
  rewrite list_insert_insert_eq. unfold set_fileMatch. simpl.
  by rewrite <- app_assoc.
Qed.

(** Two dispatches of a mapping whose schema resolves: the path is
    appended twice to the entry found for the schema URI, or the entry is
    made with the path and the path is appended to it. *)
Lemma json_handleUpdate_twice m tbl st r sch :
  schema_if_truthy (schema m) = Some r →
  resolveSchema r tbl = Some sch →
  json_schemas (json_handleUpdate normalize normalizeVSCodeUri m tbl (json_handleUpdate normalize normalizeVSCodeUri m tbl st).1).1
  = match getSettingBy normalize (Some (inl (uri_toString sch))) None (clean st) with
    | Some i =>
        push_fileMatch i (normalizeVSCodeUri (uri m))
          (push_fileMatch i (normalizeVSCodeUri (uri m)) (json_schemas (clean st)))
    | None =>
        json_schemas (clean st)
        ++ [mkSetting (Some [normalizeVSCodeUri (uri m); normalizeVSCodeUri (uri m)])
                      (Some (uri_toString sch)) None]
    end.
Proof.
  intros Hr Hsch.
  set (p := normalizeVSCodeUri (uri m)).
  set (u := uri_toString sch).
  set (st1 := clean st).
  assert (cleaned st1 = true) as Hc by apply cleaned_clean.
  assert (∀ settings, clean (config_update settings st1) = config_update settings st1) as Hcl.
  { intros settings. by apply clean_cleaned. }
  unfold json_handleUpdate at 2. rewrite Hr, Hsch. fold st1 p u.
  unfold getSettingBy, getJsonSettings. simpl path_of.
  destruct (findIndex (setting_matches normalize (Some u) None) (json_schemas st1))
    as [i|] eqn:E; cbn [fst].
  - unfold json_handleUpdate. rewrite Hr, Hsch, Hcl. fold p u.
    unfold getSettingBy, getJsonSettings. simpl path_of. simpl json_schemas.
    by rewrite findIndex_push_fileMatch, E.
  - unfold json_handleUpdate. rewrite Hr, Hsch, Hcl. fold p u.
    unfold getSettingBy, getJsonSettings. simpl path_of. simpl json_schemas.
    rewrite (findIndex_app_new _ _ _ E) by apply setting_matches_new.
    simpl. apply (push_fileMatch_new _ [p] p u).
Qed.

(** C3 (amended): for every JSON mapping M whose schema resolves, when the
    mappings already queued dispatch without a throw, enqueuing M twice
    and draining once leaves the world - the settings of the JSON handler
    included - as draining after each enqueue does.  Nothing is
    deduplicated: when M is admitted to the queue, the two dispatches
    append M's path twice to the [fileMatch] of the entry found for the
    schema URI (or make the entry with the path and append the path to
    it), so that, unless the entry found lacks a [fileMatch], the settings
    hold an entry whose [fileMatch] ends with the path twice. *)
Theorem C3_twice_is_sequential_and_duplicates
    (w : World JsonStore) (m : SchemaMapping) (tbl : Schemas) (r : SchemaRef) (sch : Uri) :
  handlers (svc w) (type m) = Some (JsonSchemaHandler normalize normalizeVSCodeUri) →
  schemas (svc w) = Some tbl →
  schema_if_truthy (schema m) = Some r →
  resolveSchema r tbl = Some sch →
  (processUpdates w).2 = Returned →
  let once := (processUpdates (registerMapping m None (registerMapping m None w))).1 in
  let separately :=
    (processUpdates
       (registerMapping m None (processUpdates (registerMapping m None w)).1)).1 in
  let st1 := clean (store (processUpdates w).1) in
  let path := normalizeVSCodeUri (uri m) in
  let found := getSettingBy normalize (Some (inl (uri_toString sch))) None st1 in
  once = separately
  ∧ (ownerMatches (claim m (svc w)) m = true →
       json_schemas (store once)
       = match found with
         | Some i => push_fileMatch i path (push_fileMatch i path (json_schemas st1))
         | None =>
             json_schemas st1 ++ [mkSetting (Some [path; path]) (Some (uri_toString sch)) None]
         end
       ∧ ((∀ i e, found = Some i → json_schemas st1 !! i = Some e → fileMatch e ≠ None) →
          ∃ i e fm, json_schemas (store once) !! i = Some e
                    ∧ fileMatch e = Some (fm ++ [path; path]))).
Proof.
  intros Hh Hs Hr Hsch Hq once separately st1 path found.
  assert (handlers_return (svc w) [m]) as Hm.
  { repeat constructor. eexists. split; [exact Hh|]. intros. apply json_handleUpdate_returns. }
  destruct (register_twice_drain_once w m tbl Hs Hq Hm) as [Heq Hadm].
  split; [exact Heq|]. intros Ha.
  assert (json_schemas (store once)
          = match found with
            | Some i => push_fileMatch i path (push_fileMatch i path (json_schemas st1))
            | None =>
                json_schemas st1
                ++ [mkSetting (Some [path; path]) (Some (uri_toString sch)) None]
            end) as Hshape.
  { unfold once. rewrite (Hadm Ha).
    rewrite (drain_twice_store tbl m _ (JsonSchemaHandler normalize normalizeVSCodeUri)).
    - apply (json_handleUpdate_twice m tbl _ r sch Hr Hsch).
    - cbn [svc set_svc handlers set_queue]. by rewrite claim_handlers.
    - intros st. apply json_handleUpdate_returns. }
  split; [exact Hshape|]. intros Hfm. rewrite Hshape.
  destruct found as [i|] eqn:Ef.
  - unfold found, getSettingBy, getJsonSettings in Ef.
    destruct (findIndex_lookup _ _ _ Ef) as (e & He & _).
    destruct (fileMatch e) as [fm|] eqn:Efm; [|by destruct (Hfm i e eq_refl He)].
    exists i, (set_fileMatch (Some (fm ++ [path; path])) e), fm.
    rewrite (push_fileMatch_twice _ _ _ _ _ He Efm).
    split; [|done]. apply list_lookup_insert_eq. by apply lookup_lt_Some with e.
  - exists (length (json_schemas st1)),
           (mkSetting (Some ([] ++ [path; path])) (Some (uri_toString sch)) None), [].
    split; [|done]. by rewrite lookup_app_r, Nat.sub_diag by lia.
Qed.

End JsonSchemaHandlerFacts.

(** C3 as stated fails: [doc1] registered twice for the [cfn] schema and
    drained once leaves one entry whose [fileMatch] holds the path of [doc1]
    twice. *)
Lemma C3_counterexample :
  json_schemas
    (store (processUpdates
              (registerMapping byA_cfn None (registerMapping byA_cfn None json_world))).1)
  = [mkSetting (Some ["/ws/doc1.json"; "/ws/doc1.json"])
               (Some "file:///store/cloudformation.schema.json") None]
  ∧ ¬ NoDup ["/ws/doc1.json"; "/ws/doc1.json"].
Proof.
  split; [reflexivity|]. intros H. apply NoDup_cons in H as [H _]. apply H. by left.
Qed.

(** The statement of C3 at [doc1] registered twice for the [cfn] schema. *)
Lemma C3_witness :
  handlers (svc json_world) (type byA_cfn) = Some (JsonSchemaHandler (λ path, path) uri_fsPath)
  ∧ schemas (svc json_world) = Some table0
  ∧ schema_if_truthy (schema byA_cfn) = Some (SchemaName "cfn")
  ∧ resolveSchema (SchemaName "cfn") table0 = Some cfnLocation
  ∧ (processUpdates json_world).2 = Returned
  ∧ (processUpdates (registerMapping byA_cfn None (registerMapping byA_cfn None json_world))).1
    = (processUpdates
         (registerMapping byA_cfn None
            (processUpdates (registerMapping byA_cfn None json_world)).1)).1.
Proof.
  do 5 (split; [reflexivity|]).
  apply (C3_twice_is_sequential_and_duplicates (λ path, path) uri_fsPath json_world byA_cfn
           table0 (SchemaName "cfn") cfnLocation); reflexivity.
Defined.

(** ** updateSchemaFromRemote and getDefaultSchemas *)

Section DownloaderFacts.

Variable host : Host.
Context {JSONValue : Type}.
Variable lib : Library JSONValue.

Implicit Types (p : UpdateParams) (env : Env).

Lemma bind_eq {A B} (t : Task A) (f : A → Task B) env :
  (t ≫= f) env
  = match t env with
    | (Ret a, env1) => f a env1
    | (Raise e, env1) => (Raise e, env1)
    end.
Proof. done. Qed.

(** The [try] block of [updateSchemaFromRemote] sends one request; it ends
    with the error [fetch_failure] tells, and then has written nothing. *)
Lemma fetch_and_store_result p env :
  let r := fetch_and_store host lib p env in
  requests r.2 = requests env ++ [source_url p]
  ∧ match fetch_failure host lib p (length (requests env)) with
    | Some e =>
        r.1 = Raise e
        ∧ files r.2 = files env ∧ globalState r.2 = globalState env
        ∧ notices r.2 = notices env
    | None => r.1 = Ret ()
    end.
Proof.
  unfold fetch_and_store, fetch_failure. rewrite bind_eq.
  unfold HttpResourceFetcher_get. cbn [fst snd].
  destruct (http host (length (requests env)) (source_url p)) as [c|]; [|done].
  destruct (truthy c); [|done].
  rewrite bind_eq. unfold parse.
  destruct (JSON_parse lib c) as [v|e]; [|done].
  rewrite bind_eq. unfold createDirectory.
  destruct (createDirectory_error host _) as [e|]; [done|].
  cbn [mret Task_ret]. rewrite bind_eq. unfold writeFile.
  destruct (writeFile_error host _) as [e|]; [done|].
  unfold try_catch, globalState_update.
  by destruct (globalState_update_error host _) as [e|].
Qed.

(** C5: when the version supplied is the cached one, or none is supplied,
    and the destination file has content, [updateSchemaFromRemote] returns
    and leaves everything as it was: no request is sent, no file and no
    cache key is written; so a second call with the version unchanged
    sends no request either. *)
Theorem C5_cache_hit_is_no_op p env content :
  version p = globalState env !! cacheKey p ∨ version p = None →
  files env !! uri_fsPath (destination p) = Some content →
  truthy content = true →
  updateSchemaFromRemote host lib p env = (Ret (), env)
  ∧ requests (updateSchemaFromRemote host lib p
                (updateSchemaFromRemote host lib p env).2).2
    = requests env.
Proof.
  intros Hv Hf Hc.
  assert (updateSchemaFromRemote host lib p env = (Ret (), env)) as H.
  { unfold updateSchemaFromRemote. rewrite bind_eq. unfold globalState_get.
    rewrite bind_eq. unfold FileResourceFetcher_get. rewrite Hf.
    change (truthy_opt (Some content)) with (truthy content). rewrite Hc.
    assert (is_outdated (version p) (globalState env !! cacheKey p) = false) as ->; [|done].
    unfold is_outdated. destruct Hv as [Hv|Hv].
    - rewrite bool_decide_eq_true_2 by done. apply andb_false_r.
    - by rewrite Hv. }
  split; [exact H|]. rewrite H. cbn [snd]. by rewrite H.
Qed.

(** C6: [updateSchemaFromRemote] throws exactly when the destination file
    had no content and the fetch, the parse, the making of the directory
    or the write fails, and it throws that failure.  When the file had
    content the call returns: a failure is logged, and the file, the cache
    key and the rest are as before. *)
Theorem C6_throws_iff_failure_without_cache p env :
  let cached := truthy_opt (files env !! uri_fsPath (destination p)) in
  let failure := fetch_failure host lib p (length (requests env)) in
  let r := updateSchemaFromRemote host lib p env in
  (∀ e, r.1 = Raise e ↔ cached = false ∧ failure = Some e)
  ∧ (cached = true →
       r.1 = Ret ()
       ∧ files r.2 !! uri_fsPath (destination p) ≠ None
       ∧ (∀ e, is_outdated (version p) (globalState env !! cacheKey p) = true →
               failure = Some e →
               files r.2 = files env ∧ globalState r.2 = globalState env
               ∧ notices r.2 = notices env ++ [UsingCachedSchema (title p) e])).
Proof.
  intros cached failure r.
  pose proof (fetch_and_store_result p env) as [Hreq Hres]. fold failure in Hres.
  assert (r = if negb (is_outdated (version p) (globalState env !! cacheKey p)) && cached
              then (Ret (), env)
              else match fetch_and_store host lib p env with
                   | (Ret a, env1) => (Ret a, env1)
                   | (Raise e, env1) =>
                       if cached then notice (UsingCachedSchema (title p) e) env1
                       else (Raise e, env1)
                   end) as Hr.
  { unfold r, updateSchemaFromRemote. rewrite bind_eq. unfold globalState_get.
    rewrite bind_eq. unfold FileResourceFetcher_get. fold cached.
    destruct (_ && _); [done|]. unfold try_catch.
    destruct (fetch_and_store host lib p env) as [[a|e] env1]; [done|].
    by destruct cached. }
  assert (cached = truthy_opt (files env !! uri_fsPath (destination p))) as Hcached by done.
  clearbody cached failure r. subst r.
  destruct (fetch_and_store host lib p env) as [res env1] eqn:E.
  cbn [fst snd] in Hreq, Hres.
  split.
  - intros e. destruct cached.
    + split; [|by intros [? _]]. intros H. exfalso.
      destruct (negb _); cbn [andb fst] in H; [done|].
      by destruct res.
    + rewrite andb_false_r. destruct failure as [e'|].
      * destruct Hres as (-> & _). cbn [fst].
        split; [by intros [= ->]|by intros [_ [= ->]]].
      * subst res. cbn [fst]. split; [done|by intros [_ ?]].
  - intros ->.
    assert (files env !! uri_fsPath (destination p) ≠ None) as Hfile.
    { by destruct (files env !! _). }
    destruct (is_outdated _ _); cbn [negb andb fst snd]; [|done].
    destruct failure as [e'|].
    + destruct Hres as (-> & Hf & Hg & Hn). cbn [notice fst snd files globalState notices].
      rewrite Hf. split; [done|]. split; [done|].
      intros e _ [= <-]. by rewrite Hg, Hn.
    + subst res. cbn [fst snd]. split; [done|]. split; [|done].
      revert E. unfold fetch_and_store. rewrite bind_eq.
      unfold HttpResourceFetcher_get.
      destruct (http host _ _) as [c|]; [|done].
      destruct (truthy c); [|done].
      rewrite bind_eq. unfold parse. destruct (JSON_parse lib c); [|done].
      rewrite bind_eq. unfold createDirectory.
      destruct (createDirectory_error host _); [done|].
      cbn [mret Task_ret]. rewrite bind_eq. unfold writeFile.
      destruct (writeFile_error host _); [done|].
      unfold try_catch, globalState_update.
      destruct (globalState_update_error host _);
        intros [= <-]; cbn [files notice snd]; by rewrite lookup_insert_eq.
Qed.

Lemma updateSchemaFromRemote_requests p env :
  ∃ l, requests (updateSchemaFromRemote host lib p env).2 = requests env ++ l.
Proof.
  unfold updateSchemaFromRemote. rewrite bind_eq. unfold globalState_get.
  rewrite bind_eq. unfold FileResourceFetcher_get.
  destruct (_ && _); [exists []; by rewrite app_nil_r|].
  unfold try_catch.
  pose proof (fetch_and_store_result p env) as [Hreq _].
  destruct (fetch_and_store host lib p env) as [[a|e] env1]; cbn [snd] in Hreq.
  - by exists [source_url p].
  - exists [source_url p]. by destruct (truthy_opt _).
Qed.

(** An update from a URL starts with a request to that URL. *)
Lemma updateBuildspecFrom_requests u loc env :
  u ∈ requests (updateBuildspecFrom host lib u loc env).2.
Proof.
  unfold updateBuildspecFrom. rewrite bind_eq. unfold getFromUrl, HttpResourceFetcher_get.
  match goal with |- context [updateSchemaFromRemote host lib ?p ?e] =>
    destruct (updateSchemaFromRemote_requests p e) as [l ->] end.
  cbn [requests]. set_solver.
Qed.

(** The first part of [getDefaultSchemas] returns, and its table has no
    buildspec entry. *)
Lemma goformationSchemas_returns g env :
  ∃ schemas2 env2,
    goformationSchemas host lib g env = (Ret schemas2, env2)
    ∧ schemas2 !! "buildspec" = None.
Proof.
  unfold goformationSchemas, getPropertyFromJsonUrl, HttpResourceFetcher_get, try_catch,
    notice, mbind, Task_bind, mret, Task_ret.
  cbv beta iota zeta.
  repeat match goal with
         | |- context [updateSchemaFromRemote host lib ?p ?e] =>
             destruct (updateSchemaFromRemote host lib p e) as [[[]|?] ?];
             cbv beta iota zeta
         end;
    eexists _, _; (split; [reflexivity|]); by simplify_map_eq.
Qed.

End DownloaderFacts.

(** With only the S3 URL answering, the table [getDefaultSchemas] returns
    has the buildspec entry (and no other); with no network and no cached
    file it returns the empty table. *)
Example getDefaultSchemas_s3_only :
  (getDefaultSchemas host_s3_only lib0 storage env0).1
  = Ret (<["buildspec" := buildSpecSchemaUri lib0 storage]> ∅).
Proof. reflexivity. Qed.

Example getDefaultSchemas_offline :
  (getDefaultSchemas host_offline lib0 storage env0).1 = Ret ∅
  ∧ requests (getDefaultSchemas host_offline lib0 storage env0).2
    = [goformationManifestURL;
       goformationURL None "cloudformation.schema.json";
       goformationURL None "sam.schema.json";
       buildspecCloudfrontURL; buildspecCloudfrontURL;
       buildspecS3FallbackURL; buildspecS3FallbackURL].
Proof. split; reflexivity. Qed.

(** The statement of C5 at a cached [cfn] schema of the version asked for. *)
Lemma C5_witness :
  (version cfn_params = globalState env_cached !! cacheKey cfn_params
   ∨ version cfn_params = None)
  ∧ files env_cached !! uri_fsPath (destination cfn_params) = Some "{}"
  ∧ truthy "{}" = true
  ∧ updateSchemaFromRemote host_offline lib0 cfn_params env_cached = (Ret (), env_cached).
Proof.
  split; [left; reflexivity|]. do 2 (split; [reflexivity|]).
  apply (C5_cache_hit_is_no_op host_offline lib0 cfn_params env_cached "{}");
    [left; reflexivity|reflexivity|reflexivity].
Defined.

(** Without a cached file and without network, [updateSchemaFromRemote]
    throws; with the cached file and a newer version asked for, the failure
    is logged and the call returns. *)
Example updateSchemaFromRemote_offline :
  (updateSchemaFromRemote host_offline lib0 cfn_params env0).1
  = Raise ("failed to resolve schema: " +:+ uri_toString cfnLocation)
  ∧ updateSchemaFromRemote host_offline lib0
      (mkParams cfnLocation (Some "v2") "https://example.invalid/cfn.json"
                "cfnSchemaVersion" "cfn") env_cached
    = (Ret (),
       mkEnv (globalState env_cached) (files env_cached) ["https://example.invalid/cfn.json"]
         [UsingCachedSchema "cfn"
            ("failed to resolve schema: " +:+ uri_toString cfnLocation)]).
Proof. split; reflexivity. Qed.

(** ** SchemaService: further properties of registerMapping and processUpdates *)

Section SchemaServiceMore.

Context {Store : Type}.
Implicit Types (w : World Store) (s : SchemaService Store) (m : SchemaMapping).

(** X1: [registerMapping] writes at most the entry of the mapping's own URI
    in the ownership table, with or without flush: the entries of all other
    URIs are as before, and the entry of its URI is as before or the mapping
    itself. *)
Theorem X1_registerMapping_touches_own_entry_only w m flush :
  (∀ k, k ≠ uri_id (uri m) →
        owned (svc (registerMapping m flush w)) !! k = owned (svc w) !! k)
  ∧ (owned_get (svc (registerMapping m flush w)) m = owned_get (svc w) m
     ∨ owned_get (svc (registerMapping m flush w)) m = Some m).
Proof.
  unfold owned_get. rewrite registerMapping_owned. unfold claim.
  destruct (isOwnerUndefined (svc w) m || isSchemaChanged (svc w) m); simpl.
  - split; [|right; apply lookup_insert_eq].
    intros k Hk. by apply lookup_insert_ne.
  - split; [done|by left].
Qed.

(** X2: a mapping without owner never changes the ownership table, and
    neither does a mapping without schema for a URI that is not claimed. *)
Theorem X2_no_owner_or_unclaimed_removal_claims_nothing w m flush :
  owner m = None ∨ (owned_get (svc w) m = None ∧ schema m = None) →
  owned (svc (registerMapping m flush w)) = owned (svc w).
Proof.
  intros H. rewrite registerMapping_owned. unfold claim.
  assert (isOwnerUndefined (svc w) m || isSchemaChanged (svc w) m = false) as ->; [|done].
  unfold isOwnerUndefined, isSchemaChanged.
  destruct H as [-> | [-> ->]]; simpl.
  - by rewrite !andb_false_r.
  - by rewrite andb_false_r.
Qed.

(** X3: for a URI that is not claimed, a mapping is pushed onto the queue
    exactly when it has no owner or has a schema.  The removal mapping of an
    owner (owner, no schema) is ignored altogether: nothing changes, and a
    flush does not even drain the queue. *)
Theorem X3_unclaimed_uri w m flush :
  owned_get (svc w) m = None →
  (enqueue m w).2 = negb (defined (owner m)) || defined (schema m)
  ∧ (defined (owner m) = true → schema m = None → registerMapping m flush w = w).
Proof.
  intros Hn.
  assert (isSchemaChanged (svc w) m = false) as Hc
    by (unfold isSchemaChanged; by rewrite Hn).
  assert (isOwnerUndefined (svc w) m = defined (owner m) && defined (schema m)) as Hu
    by (unfold isOwnerUndefined; by rewrite Hn).
  assert ((enqueue m w).2 = negb (defined (owner m)) || defined (schema m)) as Hp.
  { rewrite enqueue_pushed.
    destruct (defined (owner m) && defined (schema m)) eqn:E.
    - rewrite ownerMatches_claimed by (by rewrite Hu).
      apply andb_prop in E as [-> ->]. done.
    - unfold claim. rewrite Hu, Hc. simpl. unfold ownerMatches. rewrite Hn. simpl.
      unfold owner_strict_eq. destruct (owner m); simpl in *; [by rewrite E|done]. }
  split; [exact Hp|].
  intros Ho Hs. unfold registerMapping. rewrite Hp, Ho, Hs. simpl.
  rewrite enqueue_world, push_svc_ignored; [apply set_svc_id|].
  rewrite <- enqueue_pushed, Hp, Ho, Hs. done.
Qed.

(** X4: a mapping of the recorded owner of a claimed URI is always pushed
    onto the queue; the recorded claim becomes the mapping when the owner is
    defined and the schema differs from the recorded one, and stays as it is
    otherwise. *)
Theorem X4_recorded_owner_is_admitted w m rec :
  owned_get (svc w) m = Some rec →
  owner m = owner rec →
  (enqueue m w).2 = true
  ∧ updateQueue (svc (enqueue m w).1) = updateQueue (svc w) ++ [m]
  ∧ owned_get (svc (enqueue m w).1) m
    = Some (if defined (owner m) && negb (schema_strict_eq (schema rec) (schema m))
            then m else rec).
Proof.
  intros Hrec Ho.
  assert (isOwnerUndefined (svc w) m = false) as Hu
    by (by apply isOwnerUndefined_owned with rec).
  assert (isSchemaChanged (svc w) m
          = defined (owner m) && negb (schema_strict_eq (schema rec) (schema m))) as Hc
    by (unfold isSchemaChanged; by rewrite Hrec).
  assert (ownerMatches (claim m (svc w)) m = true) as Ha.
  { destruct (isSchemaChanged (svc w) m) eqn:E.
    - apply ownerMatches_claimed. by rewrite E, orb_true_r.
    - unfold claim. rewrite Hu, E. simpl. unfold ownerMatches. rewrite Hrec. simpl.
      unfold owner_strict_eq. by apply bool_decide_eq_true. }
  split; [by rewrite enqueue_pushed|].
  split.
  - rewrite enqueue_world. simpl. by rewrite push_svc_queue, Ha.
  - rewrite enqueue_world. simpl. unfold push_svc. rewrite Ha. rewrite <- Hc.
    change (owned_get (set_queue ?q ?s) m) with (owned_get s m).
    destruct (isSchemaChanged (svc w) m) eqn:E.
    + apply owned_get_claimed. by rewrite E, orb_true_r.
    + unfold claim. by rewrite Hu, E.
Qed.

(** X5: [processUpdates] changes nothing of the service but the queue -
    ownership table, handlers, table and timer are as before - and a second
    call right after the first is void, whether the first returned or threw:
    what a throwing drain has not dispatched is not dispatched later. *)
Theorem X5_processUpdates_again_is_void w :
  (svc (processUpdates w).1 = svc w ∨ svc (processUpdates w).1 = set_queue [] (svc w))
  ∧ processUpdates (processUpdates w).1 = ((processUpdates w).1, Returned).
Proof.
  destruct (schemas (svc w)) as [tbl|] eqn:Hs.
  - rewrite (processUpdates_resolved w tbl Hs).
    set (w1 := (drain tbl (updateQueue (svc w)) (set_svc (set_queue [] (svc w)) w)).1).
    assert (svc w1 = set_queue [] (svc w)) as Hsvc by apply drain_svc.
    split; [by right|].
    unfold processUpdates. by rewrite Hsvc.
  - assert (processUpdates w = (w, Returned)) as ->.
    { unfold processUpdates. rewrite Hs. by destruct (updateQueue (svc w)). }
    split; [by left|]. cbn [fst].
    unfold processUpdates. rewrite Hs. by destruct (updateQueue (svc w)).
Qed.

(** X6: registrations without flush only append to the queue: the queue
    afterwards is the queue before followed by mappings taken, in their
    order, from those registered. *)
Theorem X6_registrations_append_in_order (ms : list SchemaMapping) s :
  ∃ added, updateQueue (regs_svc ms s) = updateQueue s ++ added
           ∧ added `sublist_of` ms.
Proof.
  revert s. induction ms as [|m ms IH]; intros s.
  - exists []. split; [by rewrite app_nil_r|done].
  - destruct (IH (push_svc m s)) as (added & Hq & Hsub).
    change (regs_svc (m :: ms) s) with (regs_svc ms (push_svc m s)).
    rewrite Hq, push_svc_queue.
    destruct (ownerMatches (claim m s) m).
    + exists (m :: added). split; [by rewrite <- app_assoc|by apply sublist_skip].
    + exists added. split; [by rewrite app_nil_r|by apply sublist_cons].
Qed.

End SchemaServiceMore.

(** ** JsonSchemaHandler: further properties *)

Lemma filterJsonSettings_cons e settings (P : string → bool) :
  filterJsonSettings (e :: settings) P
  = (match List.filter P <$> fileMatch e with
     | Some [] => []
     | _ => [set_fileMatch (List.filter P <$> fileMatch e) e]
     end) ++ filterJsonSettings settings P.
Proof.
  unfold filterJsonSettings. rewrite fmap_cons. cbn [List.filter].
  unfold set_fileMatch at 1. cbn [fileMatch].
  by destruct (List.filter P <$> fileMatch e) as [[|f fm]|].
Qed.

Lemma filterJsonSettings_app l1 l2 (P : string → bool) :
  filterJsonSettings (l1 ++ l2) P = filterJsonSettings l1 P ++ filterJsonSettings l2 P.
Proof.
  induction l1 as [|e l1 IH]; [done|].
  rewrite <- app_comm_cons, !filterJsonSettings_cons, IH. by rewrite app_assoc.
Qed.

(** The entries of the settings that [filterJsonSettings] keeps. *)
Lemma filterJsonSettings_elem (settings : list JSONSchemaSettings)
    (P : string → bool) (e' : JSONSchemaSettings) :
  e' ∈ filterJsonSettings settings P ↔
    ∃ e, e ∈ settings
         ∧ e' = set_fileMatch (List.filter P <$> fileMatch e) e
         ∧ (fileMatch e = None
            ∨ ∃ fm f, fileMatch e = Some fm ∧ f ∈ fm ∧ P f = true).
Proof.
  induction settings as [|e settings IH].
  - split; [by intros H%elem_of_nil|]. by intros (e & H%elem_of_nil & _).
  - rewrite filterJsonSettings_cons, elem_of_app, IH. split.
    + intros [H|(e0 & He0 & Hrest)].
      * exists e. split; [by left|]. revert H.
        destruct (fileMatch e) as [fm|] eqn:Efm; simpl; intros H.
        -- destruct (List.filter P fm) as [|f fm'] eqn:Ef; [by apply elem_of_nil in H|].
           apply list_elem_of_singleton in H. split; [done|].
           right. exists fm, f. split; [done|].
           assert (In f (List.filter P fm)) as Hin by (rewrite Ef; by left).
           apply List.filter_In in Hin as [Hin HP]. by rewrite list_elem_of_In.
        -- apply list_elem_of_singleton in H. split; [done|by left].
      * exists e0. split; [by right|done].
    + intros (e0 & He0 & -> & Hkeep).
      apply elem_of_cons in He0 as [->|He0]; [|right; by exists e0].
      left. destruct Hkeep as [->|(fm & f & -> & Hf & HP)]; simpl.
      * by apply list_elem_of_singleton.
      * assert (In f (List.filter P fm)) as Hin
          by (apply List.filter_In; by rewrite <- list_elem_of_In).
        destruct (List.filter P fm); [done|]. by apply list_elem_of_singleton.
Qed.

(** In the filtered settings every [fileMatch] is non-empty and holds only
    files that pass the predicate. *)
Lemma filterJsonSettings_files (settings : list JSONSchemaSettings)
    (P : string → bool) e' fm :
  e' ∈ filterJsonSettings settings P → fileMatch e' = Some fm →
  fm ≠ [] ∧ ∀ f, f ∈ fm → P f = true.
Proof.
  intros (e & _ & -> & Hkeep)%filterJsonSettings_elem Hfm. simpl in Hfm.
  destruct Hkeep as [Hn|(fm0 & f & Hfm0 & Hf & HP)].
  - by rewrite Hn in Hfm.
  - rewrite Hfm0 in Hfm. injection Hfm as <-. split.
    + intros Hnil.
      assert (In f (List.filter P fm0)) as Hin
        by (apply List.filter_In; by rewrite <- list_elem_of_In).
      by rewrite Hnil in Hin.
    + intros f' Hf'. apply list_elem_of_In, List.filter_In in Hf'. by destruct Hf'.
Qed.

(** X8: what [filterJsonSettings] keeps.  An entry of the result is an
    entry of the settings with its [fileMatch] filtered; an entry without
    [fileMatch] is always kept, an entry with one is kept exactly when a file
    of it passes the predicate - so an entry whose [fileMatch] is empty is
    dropped whatever the predicate.  Hence in the result every [fileMatch] is
    non-empty and holds only files that pass. *)
Theorem X8_filterJsonSettings_keeps (settings : list JSONSchemaSettings)
    (P : string → bool) (e' : JSONSchemaSettings) :
  (e' ∈ filterJsonSettings settings P ↔
     ∃ e, e ∈ settings
          ∧ e' = set_fileMatch (List.filter P <$> fileMatch e) e
          ∧ (fileMatch e = None
             ∨ ∃ fm f, fileMatch e = Some fm ∧ f ∈ fm ∧ P f = true))
  ∧ (e' ∈ filterJsonSettings settings P →
     ∀ fm, fileMatch e' = Some fm → fm ≠ [] ∧ ∀ f, f ∈ fm → P f = true).
Proof.
  split; [apply filterJsonSettings_elem|].
  intros Hin fm Hfm. by apply filterJsonSettings_files with settings e'.
Qed.

Lemma filter_filter_same (P : string → bool) l :
  List.filter P (List.filter P l) = List.filter P l.
Proof.
  induction l as [|x l IH]; [done|]. simpl.
  destruct (P x) eqn:E; [|done]. simpl. by rewrite E, IH.
Qed.

(** X9: filtering the settings a second time with the same predicate
    changes nothing. *)
Theorem X9_filterJsonSettings_idempotent (settings : list JSONSchemaSettings)
    (P : string → bool) :
  filterJsonSettings (filterJsonSettings settings P) P = filterJsonSettings settings P.
Proof.
  induction settings as [|e settings IH]; [done|].
  rewrite filterJsonSettings_cons, filterJsonSettings_app, IH. f_equal.
  destruct (fileMatch e) as [fm|] eqn:Efm; simpl.
  - destruct (List.filter P fm) as [|f fm'] eqn:Ef; [done|].
    assert (List.filter P (f :: fm') = f :: fm') as Hf
      by (rewrite <- Ef; apply filter_filter_same).
    rewrite filterJsonSettings_cons. cbn [fileMatch set_fileMatch fmap option_fmap option_map].
    rewrite Hf. by rewrite app_nil_r.
  - rewrite filterJsonSettings_cons. cbn [fileMatch set_fileMatch fmap option_fmap option_map].
    by rewrite app_nil_r.
Qed.

Section JsonSchemaHandlerMore.

Variable normalize : string → string.
Variable normalizeVSCodeUri : Uri → string.

Lemma findIndex_defined {A} (f : A → bool) l :
  defined (findIndex f l) = true ↔ ∃ x, x ∈ l ∧ f x = true.
Proof.
  induction l as [|x l IH]; simpl.
  - split; [done|]. by intros (x & H%elem_of_nil & _).
  - destruct (f x) eqn:E.
    + split; [|done]. intros _. exists x. split; [by left|done].
    + destruct (findIndex f l) as [i|]; simpl in *.
      * split; [|done]. intros _. destruct (proj1 IH eq_refl) as (y & Hy & Hfy).
        exists y. split; [by right|done].
      * split; [done|]. intros (y & Hy & Hfy).
        apply elem_of_cons in Hy as [->|Hy]; [congruence|].
        apply IH. by exists y.
Qed.

(** For a path that is not empty, the entry [getSettingBy] looks for. *)
Lemma setting_matches_path path e :
  truthy path = true →
  setting_matches normalize None (Some path) e = true
  ↔ ∃ fm, fileMatch e = Some fm ∧ path ∈ fm.
Proof.
  intros Ht. unfold setting_matches. cbn [truthy_opt negb orb andb].
  rewrite Ht. cbn [negb orb andb]. rewrite andb_true_r. split.
  - destruct (fileMatch e) as [fm|]; [|done].
    intros H%bool_decide_eq_true. by exists fm.
  - intros (fm & -> & Hin). by apply bool_decide_eq_true.
Qed.

(** X10: [isMapped] tells whether some entry of the settings lists the
    path ([fsPath] for a Uri) in its [fileMatch]; but for the empty path it
    answers whether there is any entry at all. *)
Theorem X10_isMapped_reads_fileMatch (file : string + Uri) (st : JsonStore) :
  let path := match file with inl s => s | inr u => uri_fsPath u end in
  json_isMapped normalize file st = true ↔
    if truthy path
    then ∃ e fm, e ∈ json_schemas st ∧ fileMatch e = Some fm ∧ path ∈ fm
    else json_schemas st ≠ [].
Proof.
  intros path. unfold json_isMapped, getSettingBy, getJsonSettings.
  rewrite findIndex_defined.
  assert (path_of (Some file) = Some path) as -> by (by destruct file).
  cbn [path_of].
  destruct (truthy path) eqn:Et.
  - split.
    + intros (e & He & Hm). apply (setting_matches_path path e Et) in Hm as (fm & Hfm & Hin).
      by exists e, fm.
    + intros (e & fm & He & Hfm & Hp). exists e. split; [done|].
      apply (setting_matches_path path e Et). by exists fm.
  - split.
    + intros (e & He & _) Hnil. rewrite Hnil in He. by apply elem_of_nil in He.
    + intros Hne. destruct (json_schemas st) as [|e l]; [done|].
      exists e. split; [by left|]. unfold setting_matches. cbn [truthy_opt]. by rewrite Et.
Qed.

(** The settings after one dispatch of a mapping whose schema resolves. *)
Lemma json_handleUpdate_add m tbl st r sch :
  schema_if_truthy (schema m) = Some r →
  resolveSchema r tbl = Some sch →
  (json_handleUpdate normalize normalizeVSCodeUri m tbl st).1
  = mkJsonStore
      (match getSettingBy normalize (Some (inl (uri_toString sch))) None (clean st) with
       | Some i => push_fileMatch i (normalizeVSCodeUri (uri m)) (json_schemas (clean st))
       | None =>
           json_schemas (clean st)
           ++ [mkSetting (Some [normalizeVSCodeUri (uri m)]) (Some (uri_toString sch)) None]
       end)
      true.
Proof.
  intros Hr Hsch. unfold json_handleUpdate. rewrite Hr, Hsch.
  pose proof (cleaned_clean st) as Hc.
  destruct (getSettingBy _ _ _ _); unfold config_update, getJsonSettings; cbn [fst];
    by rewrite Hc.
Qed.

(** The settings after the dispatch of a removal mapping. *)
Lemma json_handleUpdate_remove m tbl st :
  schema_if_truthy (schema m) = None →
  (json_handleUpdate normalize normalizeVSCodeUri m tbl st).1
  = mkJsonStore
      (filterJsonSettings (json_schemas (clean st))
         (λ file, negb (String.eqb file (normalizeVSCodeUri (uri m)))))
      true.
Proof.
  intros Hr. unfold json_handleUpdate. rewrite Hr.
  unfold config_update, getJsonSettings. cbn [fst]. by rewrite cleaned_clean.
Qed.

(** X11: after the dispatch of a removal mapping no entry of the settings
    lists the path of the mapping, no entry is left with an empty
    [fileMatch], and (for a path that is not empty) [isMapped] answers no. *)
Theorem X11_removal_unmaps m tbl st :
  schema_if_truthy (schema m) = None →
  let path := normalizeVSCodeUri (uri m) in
  let st' := (json_handleUpdate normalize normalizeVSCodeUri m tbl st).1 in
  (∀ e fm, e ∈ json_schemas st' → fileMatch e = Some fm → (path ∉ fm) ∧ fm ≠ [])
  ∧ (truthy path = true → json_isMapped normalize (inl path) st' = false).
Proof.
  intros Hr path st'.
  assert (∀ e fm, e ∈ json_schemas st' → fileMatch e = Some fm → (path ∉ fm) ∧ fm ≠ [])
    as Hno.
  { intros e fm He Hfm. unfold st' in He. rewrite (json_handleUpdate_remove m tbl st Hr) in He.
    cbn [json_schemas] in He.
    destruct (filterJsonSettings_files _ _ e fm He Hfm) as [Hne Hall]. split; [|done].
    intros Hin. specialize (Hall path Hin). cbn beta in Hall.
    by rewrite String.eqb_refl in Hall. }
  split; [exact Hno|]. intros Ht.
  destruct (json_isMapped normalize (inl path) st') eqn:E; [|done].
  unfold json_isMapped, getSettingBy, getJsonSettings in E.
  apply findIndex_defined in E as (e & He & Hm). cbn [path_of] in Hm.
  apply (setting_matches_path path e Ht) in Hm as (fm & Hfm & Hin).
  by destruct (Hno e fm He Hfm).
Qed.

End JsonSchemaHandlerMore.

Section JsonSchemaHandlerRoundTrips.

Variable normalize : string → string.
Variable normalizeVSCodeUri : Uri → string.

Lemma lookup_push_fileMatch i path settings e fm :
  settings !! i = Some e → fileMatch e = Some fm →
  push_fileMatch i path settings = <[i := set_fileMatch (Some (fm ++ [path])) e]> settings.
Proof. intros He Hfm. unfold push_fileMatch. by rewrite He, Hfm. Qed.

Lemma filter_other_snoc path fm :
  List.filter (λ file, negb (String.eqb file path)) (fm ++ [path])
  = List.filter (λ file, negb (String.eqb file path)) fm.
Proof.
  rewrite List.filter_app. simpl. rewrite String.eqb_refl. simpl. apply app_nil_r.
Qed.

(** Removing a path from settings to which it was just appended gives what
    removing it from the settings before gives. *)
Lemma filterJsonSettings_push_fileMatch i path settings :
  filterJsonSettings (push_fileMatch i path settings)
    (λ file, negb (String.eqb file path))
  = filterJsonSettings settings (λ file, negb (String.eqb file path)).
Proof.
  unfold push_fileMatch.
  destruct (settings !! i) as [e|] eqn:He; [|done].
  destruct (fileMatch e) as [fm|] eqn:Hfm; [|done].
  revert i He. induction settings as [|x settings IH]; intros [|i] He; simpl in *; try done.
  - injection He as ->. rewrite !filterJsonSettings_cons. f_equal.
    cbn [fileMatch set_fileMatch fmap option_fmap option_map].
    rewrite Hfm. cbn [fmap option_fmap option_map]. rewrite filter_other_snoc.
    destruct (List.filter _ fm); [done|]. unfold set_fileMatch. simpl. done.
  - rewrite !filterJsonSettings_cons. f_equal. by apply IH.
Qed.

(** X12: a mapping followed by the removal mapping of the same document
    leaves the handler as the removal alone does - whether the schema of the
    first resolved or not, and whether it joined an entry or made one. *)
Theorem X12_add_then_remove_is_remove (m_add m_remove : SchemaMapping) (tbl : Schemas)
    (st : JsonStore) (r : SchemaRef) :
  uri m_remove = uri m_add →
  schema_if_truthy (schema m_add) = Some r →
  schema_if_truthy (schema m_remove) = None →
  (json_handleUpdate normalize normalizeVSCodeUri m_remove tbl
     (json_handleUpdate normalize normalizeVSCodeUri m_add tbl st).1).1
  = (json_handleUpdate normalize normalizeVSCodeUri m_remove tbl st).1.
Proof.
  intros Hu Hadd Hrem.
  rewrite !(json_handleUpdate_remove normalize normalizeVSCodeUri m_remove tbl _ Hrem).
  rewrite Hu. set (path := normalizeVSCodeUri (uri m_add)).
  f_equal.
  destruct (resolveSchema r tbl) as [sch|] eqn:Hsch.
  - rewrite (json_handleUpdate_add normalize normalizeVSCodeUri m_add tbl st r sch Hadd Hsch).
    fold path. rewrite clean_cleaned by done. cbn [json_schemas].
    destruct (getSettingBy _ _ _ _) as [i|].
    + apply filterJsonSettings_push_fileMatch.
    + rewrite filterJsonSettings_app, filterJsonSettings_cons.
      cbn [fileMatch fmap option_fmap option_map List.filter].
      rewrite String.eqb_refl. cbn [negb]. by rewrite !app_nil_r.
  - assert ((json_handleUpdate normalize normalizeVSCodeUri m_add tbl st).1 = clean st) as ->.
    { unfold json_handleUpdate. by rewrite Hadd, Hsch. }
    by rewrite clean_cleaned by apply cleaned_clean.
Qed.

(** X13: after the dispatch of a mapping whose schema resolves, its document
    is mapped - [isMapped] answers yes for its path - provided the path is
    not empty and the entry found for the schema URI, if there is one, has a
    [fileMatch]. *)
Theorem X13_add_maps (m : SchemaMapping) (tbl : Schemas) (st : JsonStore)
    (r : SchemaRef) (sch : Uri) :
  schema_if_truthy (schema m) = Some r →
  resolveSchema r tbl = Some sch →
  truthy (normalizeVSCodeUri (uri m)) = true →
  (∀ i e, getSettingBy normalize (Some (inl (uri_toString sch))) None (clean st) = Some i →
          json_schemas (clean st) !! i = Some e → fileMatch e ≠ None) →
  json_isMapped normalize (inl (normalizeVSCodeUri (uri m)))
    (json_handleUpdate normalize normalizeVSCodeUri m tbl st).1 = true.
Proof.
  intros Hr Hsch Ht Hfm.
  set (path := normalizeVSCodeUri (uri m)) in *.
  rewrite (json_handleUpdate_add normalize normalizeVSCodeUri m tbl st r sch Hr Hsch).
  fold path. unfold json_isMapped, getSettingBy at 1, getJsonSettings. cbn [json_schemas path_of].
  apply findIndex_defined.
  destruct (getSettingBy normalize _ _ (clean st)) as [i|] eqn:Ef.
  - unfold getSettingBy, getJsonSettings in Ef.
    destruct (findIndex_lookup _ _ _ Ef) as (e & He & _).
    destruct (fileMatch e) as [fm|] eqn:Efm; [|by destruct (Hfm i e eq_refl He)].
    rewrite (lookup_push_fileMatch i path _ e fm He Efm).
    exists (set_fileMatch (Some (fm ++ [path])) e). split.
    + apply list_elem_of_lookup. exists i. apply list_lookup_insert_eq.
      by apply lookup_lt_Some with e.
    + apply (setting_matches_path normalize path _ Ht). exists (fm ++ [path]).
      split; [done|]. set_solver.
  - exists (mkSetting (Some [path]) (Some (uri_toString sch)) None). split; [set_solver|].
    apply (setting_matches_path normalize path _ Ht). exists [path]. split; [done|set_solver].
Qed.

Lemma json_handleUpdate_clean m tbl st :
  json_handleUpdate normalize normalizeVSCodeUri m tbl (clean st)
  = json_handleUpdate normalize normalizeVSCodeUri m tbl st.
Proof.
  unfold json_handleUpdate. by rewrite (clean_cleaned (clean st)) by apply cleaned_clean.
Qed.

Lemma set_fileMatch_same e fm : fileMatch e = Some fm → set_fileMatch (Some fm) e = e.
Proof. intros H. destruct e. simpl in *. by subst. Qed.

(** Mappings whose schemas resolve to one URI, dispatched to a handler that
    has cleaned up and has an entry for the URI: all paths go to that entry. *)
Lemma dispatch_all_found (tbl : Schemas) (u : string) (ms : list SchemaMapping) :
  ∀ (st : JsonStore) i e,
  cleaned st = true →
  findIndex (setting_matches normalize (Some u) None) (json_schemas st) = Some i →
  json_schemas st !! i = Some e →
  (∀ m, m ∈ ms → ∃ r sch, schema_if_truthy (schema m) = Some r
                           ∧ resolveSchema r tbl = Some sch ∧ uri_toString sch = u) →
  dispatch_all normalize normalizeVSCodeUri tbl ms st
  = mkJsonStore
      (match fileMatch e with
       | Some fm =>
           <[i := set_fileMatch (Some (fm ++ ((λ m, normalizeVSCodeUri (uri m)) <$> ms))) e]>
             (json_schemas st)
       | None => json_schemas st
       end)
      true.
Proof.
  induction ms as [|m ms IH]; intros st i e Hc Hi He Hall.
  - simpl. destruct st as [settings c]. simpl in *. subst c. f_equal.
    destruct (fileMatch e) as [fm|] eqn:Efm; [|done].
    rewrite app_nil_r, (set_fileMatch_same e fm Efm). symmetry. by apply list_insert_id.
  - destruct (Hall m) as (r & sch & Hr & Hsch & Hu); [by left|].
    assert (∀ m', m' ∈ ms → ∃ r sch, schema_if_truthy (schema m') = Some r
                           ∧ resolveSchema r tbl = Some sch ∧ uri_toString sch = u) as Hall'.
    { intros m' Hm'. apply Hall. by right. }
    change (dispatch_all normalize normalizeVSCodeUri tbl (m :: ms) st)
      with (dispatch_all normalize normalizeVSCodeUri tbl ms
              (json_handleUpdate normalize normalizeVSCodeUri m tbl st).1).
    rewrite (json_handleUpdate_add normalize normalizeVSCodeUri m tbl st r sch Hr Hsch).
    rewrite Hu, (clean_cleaned st Hc). unfold getSettingBy, getJsonSettings. cbn [path_of].
    rewrite Hi. set (path := normalizeVSCodeUri (uri m)).
    destruct (fileMatch e) as [fm|] eqn:Efm.
    + rewrite (lookup_push_fileMatch i path _ e fm He Efm).
      assert (i < length (json_schemas st)) as Hlt by (by apply lookup_lt_Some with e).
      rewrite (IH _ i (set_fileMatch (Some (fm ++ [path])) e)); cbn [json_schemas cleaned].
      * cbn [fileMatch set_fileMatch]. rewrite list_insert_insert_eq.
        rewrite fmap_cons. fold path. by rewrite <- app_assoc.
      * done.
      * by rewrite (findIndex_insert _ _ _ e).
      * by apply list_lookup_insert_eq.
      * done.
    + assert (push_fileMatch i path (json_schemas st) = json_schemas st) as ->
        by (unfold push_fileMatch; by rewrite He, Efm).
      rewrite (IH _ i e); cbn [json_schemas cleaned]; try done. by rewrite Efm.
Qed.

(** X14: fan-in.  Mappings whose schemas resolve to one and the same URI
    share one entry of the settings: dispatched one after the other, they
    append their paths, in the order of dispatch, to the entry found for the
    URI after the cleanup (unless it has no [fileMatch]); when there is no
    such entry, one entry is made that lists all the paths. *)
Theorem X14_fan_in (tbl : Schemas) (u : string) (ms : list SchemaMapping) (st : JsonStore) :
  ms ≠ [] →
  (∀ m, m ∈ ms → ∃ r sch, schema_if_truthy (schema m) = Some r
                           ∧ resolveSchema r tbl = Some sch ∧ uri_toString sch = u) →
  let paths := (λ m, normalizeVSCodeUri (uri m)) <$> ms in
  json_schemas (dispatch_all normalize normalizeVSCodeUri tbl ms st)
  = match getSettingBy normalize (Some (inl u)) None (clean st) with
    | Some i =>
        match json_schemas (clean st) !! i with
        | Some e =>
            match fileMatch e with
            | Some fm => <[i := set_fileMatch (Some (fm ++ paths)) e]> (json_schemas (clean st))
            | None => json_schemas (clean st)
            end
        | None => json_schemas (clean st)
        end
    | None => json_schemas (clean st) ++ [mkSetting (Some paths) (Some u) None]
    end.
Proof.
  intros Hne Hall paths. destruct ms as [|m ms]; [done|]. clear Hne.
  assert (dispatch_all normalize normalizeVSCodeUri tbl (m :: ms) st
          = dispatch_all normalize normalizeVSCodeUri tbl (m :: ms) (clean st)) as ->.
  { unfold dispatch_all. simpl. by rewrite json_handleUpdate_clean. }
  pose proof (cleaned_clean st) as Hc.
  unfold getSettingBy, getJsonSettings. cbn [path_of].
  destruct (findIndex _ (json_schemas (clean st))) as [i|] eqn:Ef.
  - destruct (findIndex_lookup _ _ _ Ef) as (e & He & _). rewrite He.
    rewrite (dispatch_all_found tbl u (m :: ms) (clean st) i e Hc Ef He Hall).
    cbn [json_schemas]. by destruct (fileMatch e).
  - destruct (Hall m) as (r & sch & Hr & Hsch & Hu); [by left|].
    change (dispatch_all normalize normalizeVSCodeUri tbl (m :: ms) (clean st))
      with (dispatch_all normalize normalizeVSCodeUri tbl ms
              (json_handleUpdate normalize normalizeVSCodeUri m tbl (clean st)).1).
    rewrite (json_handleUpdate_add normalize normalizeVSCodeUri m tbl _ r sch Hr Hsch).
    rewrite Hu, (clean_cleaned (clean st) Hc). unfold getSettingBy, getJsonSettings.
    cbn [path_of]. rewrite Ef.
    set (path := normalizeVSCodeUri (uri m)).
    set (settings := json_schemas (clean st)).
    rewrite (dispatch_all_found tbl u ms _ (length settings)
               (mkSetting (Some [path]) (Some u) None)); cbn [json_schemas cleaned].
    + cbn [fileMatch]. unfold set_fileMatch. cbn [url inline_schema].
      rewrite insert_app_r_alt, Nat.sub_diag by lia. done.
    + done.
    + apply findIndex_app_new; [done|apply setting_matches_new].
    + by rewrite lookup_app_r, Nat.sub_diag by lia.
    + intros m' Hm'. apply Hall. by right.
Qed.

Lemma elem_of_push_fileMatch i path settings e :
  e ∈ push_fileMatch i path settings →
  e ∈ settings
  ∨ ∃ e0 fm0, e0 ∈ settings ∧ fileMatch e0 = Some fm0
              ∧ e = set_fileMatch (Some (fm0 ++ [path])) e0.
Proof.
  unfold push_fileMatch.
  destruct (settings !! i) as [e0|] eqn:He0; [|by left].
  destruct (fileMatch e0) as [fm0|] eqn:Hfm0; [|by left].
  intros (j & Hj)%list_elem_of_lookup.
  apply list_lookup_insert_Some in Hj as [(Heq & <- & _)|(Hne & Hj)].
  - right. exists e0, fm0. split; [by apply list_elem_of_lookup_2 with i|done].
  - left. by apply list_elem_of_lookup_2 with j.
Qed.

(** X15: the first update that a handler handles cleans up: afterwards the
    handler is marked as cleaned, and no entry lists a file that ends with
    [.awsResource.json], except for the path of the mapping just added. *)
Theorem X15_first_update_cleans_up (m : SchemaMapping) (tbl : Schemas) (st : JsonStore) :
  cleaned st = false →
  let st' := (json_handleUpdate normalize normalizeVSCodeUri m tbl st).1 in
  cleaned st' = true
  ∧ ∀ e fm f, e ∈ json_schemas st' → fileMatch e = Some fm → f ∈ fm →
              endsWith f ".awsResource.json" = true →
              f = normalizeVSCodeUri (uri m) ∧ schema_if_truthy (schema m) ≠ None.
Proof.
  intros Hc st'.
  set (path := normalizeVSCodeUri (uri m)) in *.
  set (stale := λ file, negb (endsWith file ".awsResource.json")).
  assert (json_schemas (clean st) = filterJsonSettings (json_schemas st) stale) as Hclean.
  { unfold clean. by rewrite Hc. }
  assert (∀ e fm f, e ∈ json_schemas (clean st) → fileMatch e = Some fm → f ∈ fm →
                    endsWith f ".awsResource.json" = true → False) as Hnone.
  { intros e fm f He Hfm Hf He'. rewrite Hclean in He.
    destruct (filterJsonSettings_files _ _ e fm He Hfm) as [_ Hall].
    specialize (Hall f Hf). unfold stale in Hall. by rewrite He' in Hall. }
  destruct (schema_if_truthy (schema m)) as [r|] eqn:Hr.
  - destruct (resolveSchema r tbl) as [sch|] eqn:Hsch.
    + unfold st'.
      rewrite (json_handleUpdate_add normalize normalizeVSCodeUri m tbl st r sch Hr Hsch).
      fold path. split; [done|]. cbn [json_schemas]. intros e fm f He Hfm Hf He'.
      split; [|done].
      destruct (getSettingBy normalize _ _ (clean st)) as [i|].
      * apply elem_of_push_fileMatch in He as [He|(e0 & fm0 & He0 & Hfm0 & ->)].
        -- by destruct (Hnone e fm f He Hfm Hf He').
        -- cbn [fileMatch set_fileMatch] in Hfm. injection Hfm as <-.
           apply elem_of_app in Hf as [Hf|Hf]; [|by apply list_elem_of_singleton in Hf].
           by destruct (Hnone e0 fm0 f He0 Hfm0 Hf He').
      * apply elem_of_app in He as [He|He]; [by destruct (Hnone e fm f He Hfm Hf He')|].
        apply list_elem_of_singleton in He as ->. cbn [fileMatch] in Hfm.
        injection Hfm as <-. by apply list_elem_of_singleton in Hf.
    + assert (st' = clean st) as -> by (unfold st', json_handleUpdate; by rewrite Hr, Hsch).
      split; [apply cleaned_clean|]. intros e fm f He Hfm Hf He'.
      by destruct (Hnone e fm f He Hfm Hf He').
  - unfold st'. rewrite (json_handleUpdate_remove normalize normalizeVSCodeUri m tbl st Hr).
    split; [done|]. cbn [json_schemas]. intros e fm f He Hfm Hf He'.
    apply filterJsonSettings_elem in He as (e0 & He0 & -> & _).
    cbn [fileMatch set_fileMatch] in Hfm.
    destruct (fileMatch e0) as [fm0|] eqn:Hfm0; [|done].
    cbn [fmap option_fmap option_map] in Hfm. injection Hfm as <-.
    apply list_elem_of_In, List.filter_In in Hf as [Hf _]. apply list_elem_of_In in Hf.
    by destruct (Hnone e0 fm0 f He0 Hfm0 Hf He').
Qed.

End JsonSchemaHandlerRoundTrips.

(** ** updateSchemaFromRemote and getDefaultSchemas: further properties *)

Section DownloaderMore.

Variable host : Host.
Context {JSONValue : Type}.
Variable lib : Library JSONValue.

Implicit Types (p : UpdateParams) (env : Env).

(** The [try] block when nothing fails: the document is written, and the
    cache key is updated unless the update is rejected, which is logged. *)
Lemma fetch_and_store_ok p env :
  fetch_failure host lib p (length (requests env)) = None →
  ∃ doc, fetched_document host lib p (length (requests env)) = Some doc
    ∧ fetch_and_store host lib p env
      = (Ret (),
         mkEnv
           (match globalState_update_error host (cacheKey p) with
            | None => cache_updated (cacheKey p) (version p) (globalState env)
            | Some _ => globalState env
            end)
           (<[uri_fsPath (destination p) := doc]> (files env))
           (requests env ++ [source_url p])
           (notices env ++
            match globalState_update_error host (cacheKey p) with
            | None => []
            | Some e => [FailedToUpdateCacheKey (title p) e]
            end)).
Proof.
  unfold fetch_failure, fetched_document, fetch_and_store. rewrite bind_eq.
  unfold HttpResourceFetcher_get.
  destruct (http host (length (requests env)) (source_url p)) as [c|]; [|done].
  destruct (truthy c); [|done].
  rewrite bind_eq. unfold parse.
  destruct (JSON_parse lib c) as [v|e]; [|done].
  rewrite bind_eq. unfold createDirectory.
  destruct (createDirectory_error host _) as [e|]; [done|].
  cbn [mret Task_ret]. rewrite bind_eq. unfold writeFile.
  intros Hw. rewrite Hw. eexists. split; [reflexivity|].
  unfold try_catch, globalState_update, cache_updated, notice.
  destruct (globalState_update_error host _) as [e|]; cbn [globalState files requests notices].
  - done.
  - by rewrite app_nil_r.
Qed.

(** The whole of [updateSchemaFromRemote] in terms of its [try] block. *)
Lemma updateSchemaFromRemote_cases p env :
  updateSchemaFromRemote host lib p env
  = if negb (is_outdated (version p) (globalState env !! cacheKey p))
       && truthy_opt (files env !! uri_fsPath (destination p))
    then (Ret (), env)
    else match fetch_and_store host lib p env with
         | (Ret a, env1) => (Ret a, env1)
         | (Raise e, env1) =>
             if truthy_opt (files env !! uri_fsPath (destination p))
             then notice (UsingCachedSchema (title p) e) env1
             else (Raise e, env1)
         end.
Proof.
  unfold updateSchemaFromRemote. rewrite bind_eq. unfold globalState_get.
  rewrite bind_eq. unfold FileResourceFetcher_get.
  destruct (_ && _); [done|]. unfold try_catch.
  destruct (fetch_and_store host lib p env) as [[a|e] env1]; [done|].
  by destruct (truthy_opt _).
Qed.

(** X16: what [updateSchemaFromRemote] never does.  It sends at most one
    request, to the URL it is given; it writes no file but the destination
    and no cache key but its own; and when it throws it has written nothing
    at all. *)
Theorem X16_updateSchemaFromRemote_frame p env :
  let r := updateSchemaFromRemote host lib p env in
  (requests r.2 = requests env ∨ requests r.2 = requests env ++ [source_url p])
  ∧ (∀ path, path ≠ uri_fsPath (destination p) → files r.2 !! path = files env !! path)
  ∧ (∀ key, key ≠ cacheKey p → globalState r.2 !! key = globalState env !! key)
  ∧ (∀ e, r.1 = Raise e → files r.2 = files env ∧ globalState r.2 = globalState env).
Proof.
  intros r. unfold r. rewrite updateSchemaFromRemote_cases.
  destruct (_ && _); [by repeat split; try left|].
  pose proof (fetch_and_store_result host lib p env) as [Hreq Hres].
  destruct (fetch_failure host lib p (length (requests env))) as [e0|] eqn:Ef.
  - destruct Hres as (Hr & Hf & Hg & _).
    destruct (fetch_and_store host lib p env) as [res env1]. cbn [fst snd] in *. subst res.
    destruct (truthy_opt _); cbn [notice fst snd files globalState requests];
      rewrite Hf, Hg; (split; [by right|]); done.
  - destruct (fetch_and_store_ok p env Ef) as (doc & _ & ->).
    cbn [fst snd files globalState requests]. split; [by right|]. split; [|split].
    + intros path Hne. by apply lookup_insert_ne.
    + intros key Hne. destruct (globalState_update_error host _); [done|].
      unfold cache_updated. destruct (version p); by simplify_map_eq.
    + done.
Qed.

(** X17: a download.  When the version asked for is not the cached one, or
    the destination has no content, and nothing fails, the call returns with
    the destination holding the fetched document under the given title and
    the cache key holding the version asked for (the key is removed when no
    version is given). *)
Theorem X17_download_stores_document_and_version p env :
  is_outdated (version p) (globalState env !! cacheKey p) = true
    ∨ truthy_opt (files env !! uri_fsPath (destination p)) = false →
  fetch_failure host lib p (length (requests env)) = None →
  globalState_update_error host (cacheKey p) = None →
  let r := updateSchemaFromRemote host lib p env in
  r.1 = Ret ()
  ∧ files r.2 !! uri_fsPath (destination p)
    = fetched_document host lib p (length (requests env))
  ∧ fetched_document host lib p (length (requests env)) ≠ None
  ∧ globalState r.2 !! cacheKey p = version p
  ∧ requests r.2 = requests env ++ [source_url p]
  ∧ notices r.2 = notices env.
Proof.
  intros Hneed Hok Hupd r. unfold r. rewrite updateSchemaFromRemote_cases.
  assert (negb (is_outdated (version p) (globalState env !! cacheKey p))
          && truthy_opt (files env !! uri_fsPath (destination p)) = false) as ->.
  { destruct Hneed as [-> | ->]; [done|apply andb_false_r]. }
  destruct (fetch_and_store_ok p env Hok) as (doc & Hdoc & ->).
  rewrite Hupd, Hdoc. cbn [fst snd files globalState requests notices].
  split; [done|]. split; [by rewrite lookup_insert_eq|]. split; [done|].
  split; [|by rewrite app_nil_r].
  unfold cache_updated. destruct (version p); by simplify_map_eq.
Qed.

(** X18: a rejected update of the cache key is not fatal.  The call returns
    with the document written and the failure logged; the cache key is as
    before, so that the next call with that version finds it outdated and
    fetches again. *)
Theorem X18_cache_key_failure_is_logged p env (v e : string) :
  version p = Some v → truthy v = true →
  globalState env !! cacheKey p ≠ Some v →
  fetch_failure host lib p (length (requests env)) = None →
  globalState_update_error host (cacheKey p) = Some e →
  let r := updateSchemaFromRemote host lib p env in
  r.1 = Ret ()
  ∧ files r.2 !! uri_fsPath (destination p)
    = fetched_document host lib p (length (requests env))
  ∧ globalState r.2 = globalState env
  ∧ notices r.2 = notices env ++ [FailedToUpdateCacheKey (title p) e]
  ∧ requests (updateSchemaFromRemote host lib p r.2).2
    = requests env ++ [source_url p; source_url p].
Proof.
  intros Hv Ht Hold Hok Hupd r.
  assert (∀ env', globalState env' = globalState env →
            is_outdated (version p) (globalState env' !! cacheKey p) = true) as Hout.
  { intros env' ->. unfold is_outdated. rewrite Hv. simpl. rewrite Ht. simpl.
    apply negb_true_iff, bool_decide_eq_false. congruence. }
  assert (r = (Ret (),
               mkEnv (globalState env)
                 (<[uri_fsPath (destination p) :=
                      default EmptyString
                        (fetched_document host lib p (length (requests env)))]> (files env))
                 (requests env ++ [source_url p])
                 (notices env ++ [FailedToUpdateCacheKey (title p) e]))) as Hr.
  { unfold r. rewrite updateSchemaFromRemote_cases, (Hout env eq_refl). cbn [negb andb].
    destruct (fetch_and_store_ok p env Hok) as (doc & Hdoc & ->).
    by rewrite Hupd, Hdoc. }
  destruct (fetch_and_store_ok p env Hok) as (doc & Hdoc & _).
  rewrite Hr, Hdoc. cbn [fst snd files globalState requests notices default id].
  split; [done|]. split; [by rewrite lookup_insert_eq|]. split; [done|]. split; [done|].
  set (env2 := mkEnv (globalState env) (<[uri_fsPath (destination p) := doc]> (files env))
                 (requests env ++ [source_url p])
                 (notices env ++ [FailedToUpdateCacheKey (title p) e])).
  rewrite (updateSchemaFromRemote_cases p env2), (Hout env2 eq_refl). cbn [negb andb].
  pose proof (fetch_and_store_result host lib p env2) as [Hreq _].
  assert (requests env2 = requests env ++ [source_url p]) as Hreq2 by done.
  rewrite Hreq2, <- app_assoc in Hreq. clear Hreq2.
  destruct (fetch_and_store host lib p env2) as [[a|e'] env1]; cbn [snd] in *.
  - exact Hreq.
  - destruct (truthy_opt _); cbn [notice snd requests]; exact Hreq.
Qed.

(** X19: a download is followed by cache hits.  When the call has met no
    failure and the cache accepts the version, a second call with the same
    parameters changes nothing and sends no request - given that the text
    of a document is never empty. *)
Theorem X19_second_call_is_cache_hit p env :
  (∀ v, truthy (JSON_stringify lib v) = true) →
  fetch_failure host lib p (length (requests env)) = None →
  globalState_update_error host (cacheKey p) = None →
  let r := updateSchemaFromRemote host lib p env in
  r.1 = Ret () ∧ updateSchemaFromRemote host lib p r.2 = (Ret (), r.2).
Proof.
  intros Htext Hok Hupd r. unfold r.
  rewrite (updateSchemaFromRemote_cases p env).
  destruct (negb _ && truthy_opt _) eqn:Hhit.
  - split; [done|]. cbn [snd]. by rewrite updateSchemaFromRemote_cases, Hhit.
  - destruct (fetch_and_store_ok p env Hok) as (doc & Hdoc & ->). rewrite Hupd.
    split; [done|]. cbn [snd].
    rewrite updateSchemaFromRemote_cases. cbn [globalState files].
    rewrite lookup_insert_eq.
    assert (truthy doc = true) as Hdt.
    { unfold fetched_document in Hdoc.
      destruct (http host _ _) as [c|]; [|done]. destruct (truthy c); [|done].
      destruct (JSON_parse lib c); [|done]. injection Hdoc as <-. apply Htext. }
    assert (is_outdated (version p)
              (cache_updated (cacheKey p) (version p) (globalState env) !! cacheKey p) = false)
      as ->.
    { unfold is_outdated, cache_updated. destruct (version p) as [v|]; [|done].
      rewrite lookup_insert_eq, bool_decide_eq_true_2 by done. apply andb_false_r. }
    cbn [truthy_opt negb andb]. by rewrite Hdt.
Qed.

End DownloaderMore.

Section GetDefaultSchemasMore.

Variable host : Host.
Context {JSONValue : Type}.
Variable lib : Library JSONValue.

Implicit Types (p : UpdateParams) (env : Env).

(** Without a version to compare, a destination with content is a cache hit. *)
Lemma updateSchemaFromRemote_no_version p env c :
  version p = None →
  files env !! uri_fsPath (destination p) = Some c → truthy c = true →
  updateSchemaFromRemote host lib p env = (Ret (), env).
Proof.
  intros Hv Hf Hc. rewrite updateSchemaFromRemote_cases, Hv, Hf. simpl. by rewrite Hc.
Qed.

(** X20: the local schemas are used when the network is silent.  When no
    request gets an answer and the three schema files have content,
    [getDefaultSchemas] returns the table with all three entries; it has
    sent two requests (for the manifest and for the buildspec document at
    CloudFront, not at S3), and has written and logged nothing. *)
Theorem X20_silent_network_uses_cached_schemas (g : Uri) env (c1 c2 c3 : string) :
  (∀ n u, http host n u = None) →
  files env !! uri_fsPath (cfnSchemaUri lib g) = Some c1 → truthy c1 = true →
  files env !! uri_fsPath (samSchemaUri lib g) = Some c2 → truthy c2 = true →
  files env !! uri_fsPath (buildSpecSchemaUri lib g) = Some c3 → truthy c3 = true →
  getDefaultSchemas host lib g env
  = (Ret (<["buildspec" := buildSpecSchemaUri lib g]>
            (<["sam" := samSchemaUri lib g]> (<["cfn" := cfnSchemaUri lib g]> ∅))),
     mkEnv (globalState env) (files env)
       (requests env ++ [goformationManifestURL; buildspecCloudfrontURL])
       (notices env)).
Proof.
  intros Hhttp Hf1 Ht1 Hf2 Ht2 Hf3 Ht3.
  unfold getDefaultSchemas, goformationSchemas, buildspecSchemas, getPropertyFromJsonUrl,
    updateBuildspecFrom, getFromUrl, HttpResourceFetcher_get, try_catch,
    mbind, Task_bind, mret, Task_ret.
  cbv beta iota zeta. rewrite !Hhttp. cbv beta iota zeta.
  set (env1 := mkEnv (globalState env) (files env)
                 (requests env ++ [goformationManifestURL]) (notices env)).
  rewrite (updateSchemaFromRemote_no_version _ env1 c1) by done.
  rewrite (updateSchemaFromRemote_no_version _ env1 c2) by done.
  cbv beta iota zeta.
  set (env2 := mkEnv (globalState env1) (files env1)
                 (requests env1 ++ [buildspecCloudfrontURL]) (notices env1)).
  rewrite !Hhttp.
  rewrite (updateSchemaFromRemote_no_version _ env2 c3) by done.
  unfold env2, env1. cbn [globalState files requests notices]. by rewrite <- app_assoc.
Qed.

(** X21: the table that [getDefaultSchemas] returns has no keys but
    ['cfn'], ['sam'] and ['buildspec'], each bound to the file of that name
    under the storage directory. *)
Theorem X21_table_holds_the_three_locations (g : Uri) env (tbl : Schemas) env'
    (k : string) (loc : Uri) :
  getDefaultSchemas host lib g env = (Ret tbl, env') →
  tbl !! k = Some loc →
  (k = "cfn" ∧ loc = cfnSchemaUri lib g)
  ∨ (k = "sam" ∧ loc = samSchemaUri lib g)
  ∨ (k = "buildspec" ∧ loc = buildSpecSchemaUri lib g).
Proof.
  unfold getDefaultSchemas, goformationSchemas, buildspecSchemas, getPropertyFromJsonUrl,
    HttpResourceFetcher_get, try_catch, notice, mbind, Task_bind, mret, Task_ret.
  cbv beta iota zeta.
  repeat match goal with
         | |- context [updateSchemaFromRemote host lib ?p ?e] =>
             destruct (updateSchemaFromRemote host lib p e) as [[[]|?] ?];
             cbv beta iota zeta
         | |- context [updateBuildspecFrom host lib ?u ?l ?e] =>
             destruct (updateBuildspecFrom host lib u l e) as [[[]|?] ?];
             cbv beta iota zeta
         end;
    intros [= <- _] Hk;
    repeat (apply lookup_insert_Some in Hk as [[<- <-]|[_ Hk]]; [by auto|]);
    by rewrite lookup_empty in Hk.
Qed.

(** X22: a cached buildspec schema makes the fallback unnecessary.  When
    CloudFront gives nothing but the buildspec file has content, the update
    from CloudFront is a cache hit: the table gets its ['buildspec'] entry,
    and S3 is not asked. *)
Theorem X22_cached_buildspec_skips_fallback (g : Uri) (schemas2 : Schemas) env (c : string) :
  truthy_opt (http host (length (requests env)) buildspecCloudfrontURL) = false →
  files env !! uri_fsPath (buildSpecSchemaUri lib g) = Some c → truthy c = true →
  buildspecSchemas host lib g schemas2 env
  = (Ret (<["buildspec" := buildSpecSchemaUri lib g]> schemas2),
     mkEnv (globalState env) (files env) (requests env ++ [buildspecCloudfrontURL])
       (notices env)).
Proof.
  intros Hcf Hf Ht.
  unfold buildspecSchemas, updateBuildspecFrom, getFromUrl, HttpResourceFetcher_get,
    try_catch, mbind, Task_bind, mret, Task_ret.
  cbv beta iota zeta.
  set (env1 := mkEnv (globalState env) (files env)
                 (requests env ++ [buildspecCloudfrontURL]) (notices env)).
  assert (match http host (length (requests env)) buildspecCloudfrontURL with
          | Some c0 => if truthy c0 then Some (getStringHash lib c0) else None
          | None => None
          end = None) as ->.
  { destruct (http host _ _) as [c0|]; [|done]. simpl in Hcf. by rewrite Hcf. }
  by rewrite (updateSchemaFromRemote_no_version _ env1 c).
Qed.

End GetDefaultSchemasMore.

(** ** getDefaultSchemas: the fallback of the buildspec schema *)

Section BuildspecFallback.

Variable host : Host.
Context {JSONValue : Type}.
Variable lib : Library JSONValue.

Implicit Types (p : UpdateParams) (env : Env).

(** With a buildspec file that has content, the update from a URL
    returns, after one request (for the hash) or two. *)
Lemma updateBuildspecFrom_cached u loc env :
  truthy_opt (files env !! uri_fsPath loc) = true →
  let r := updateBuildspecFrom host lib u loc env in
  r.1 = Ret ()
  ∧ (requests r.2 = requests env ++ [u] ∨ requests r.2 = requests env ++ [u; u]).
Proof.
  intros Hc r. unfold r, updateBuildspecFrom. rewrite bind_eq.
  unfold getFromUrl, HttpResourceFetcher_get. cbv beta iota zeta.
  set (env1 := mkEnv (globalState env) (files env) (requests env ++ [u]) (notices env)).
  match goal with |- context [updateSchemaFromRemote host lib ?q env1] => set (p := q) end.
  rewrite updateSchemaFromRemote_cases.
  change (files env1 !! uri_fsPath (destination p)) with (files env !! uri_fsPath loc).
  rewrite Hc.
  destruct (negb _ && true); [split; [done|by left]|].
  pose proof (fetch_and_store_result host lib p env1) as [Hreq _].
  assert (requests env1 ++ [source_url p] = requests env ++ [u; u]) as Happ
    by (unfold env1; cbn [requests]; by rewrite <- app_assoc).
  destruct (fetch_and_store host lib p env1) as [[[]|e] env2]; cbn [fst snd notice requests] in *.
  - split; [done|right]. by rewrite Hreq.
  - split; [done|right]. by rewrite Hreq.
Qed.

(** Without such a file the update sends its two requests, and it throws
    exactly the failure of the second: of the fetch, the parse, the making
    of the directory or the write. *)
Lemma updateBuildspecFrom_uncached u loc env :
  truthy_opt (files env !! uri_fsPath loc) = false →
  let r := updateBuildspecFrom host lib u loc env in
  requests r.2 = requests env ++ [u; u]
  ∧ match fetch_failure host lib (buildspecParams lib loc None u) (S (length (requests env))) with
    | Some e =>
        r.1 = Raise e ∧ files r.2 = files env ∧ globalState r.2 = globalState env
        ∧ notices r.2 = notices env
    | None => r.1 = Ret ()
    end.
Proof.
  intros Hc r. unfold r, updateBuildspecFrom. rewrite bind_eq.
  unfold getFromUrl, HttpResourceFetcher_get. cbv beta iota zeta.
  set (env1 := mkEnv (globalState env) (files env) (requests env ++ [u]) (notices env)).
  match goal with |- context [updateSchemaFromRemote host lib ?q env1] => set (p := q) end.
  rewrite updateSchemaFromRemote_cases.
  change (files env1 !! uri_fsPath (destination p)) with (files env !! uri_fsPath loc).
  rewrite Hc, andb_false_r.
  pose proof (fetch_and_store_result host lib p env1) as [Hreq Hres].
  assert (requests env1 ++ [source_url p] = requests env ++ [u; u]) as Happ
    by (unfold env1; cbn [requests]; by rewrite <- app_assoc).
  assert (length (requests env1) = S (length (requests env))) as Hlen
    by (unfold env1; cbn [requests]; rewrite length_app; simpl; lia).
  rewrite Hlen in Hres.
  change (fetch_failure host lib p (S (length (requests env))))
    with (fetch_failure host lib (buildspecParams lib loc None u) (S (length (requests env))))
    in Hres.
  destruct (fetch_and_store host lib p env1) as [res env2]. cbn [fst snd] in *.
  rewrite Happ in Hreq.
  destruct (fetch_failure host lib (buildspecParams lib loc None u) _) as [e|].
  - destruct Hres as (-> & Hf & Hg & Hn). done.
  - by subst res.
Qed.

(** C7 (amended): [getDefaultSchemas] never throws, and the buildspec
    schema is asked of S3 exactly when the update from CloudFront throws:
    when no buildspec file with content is there and the fetch, the parse,
    the making of the directory or the write fails.  Then the whole update
    - the request for the hash, then [updateSchemaFromRemote] - is run
    again from the S3 URL; when that one meets no failure the table has
    the ['buildspec'] entry, and when it fails too the table has none, both
    failures are logged and nothing was written.  But with a buildspec file
    that has content a failed fetch from CloudFront is silent: the update
    returns, the table has the ['buildspec'] entry, and S3 is not asked.
    The other entries are those of the first part. *)
Theorem C7_fallback_when_cloudfront_update_throws (g : Uri) env :
  let loc := buildSpecSchemaUri lib g in
  let failure u n := fetch_failure host lib (buildspecParams lib loc None u) n in
  ∃ schemas2 env2 tbl env',
    goformationSchemas host lib g env = (Ret schemas2, env2)
    ∧ getDefaultSchemas host lib g env = (Ret tbl, env')
    ∧ (∀ k, k ≠ "buildspec" → tbl !! k = schemas2 !! k)
    ∧ (truthy_opt (files env2 !! uri_fsPath loc) = true
       ∨ failure buildspecCloudfrontURL (S (length (requests env2))) = None →
         tbl !! "buildspec" = Some loc
         ∧ (requests env' = requests env2 ++ [buildspecCloudfrontURL]
            ∨ requests env'
              = requests env2 ++ [buildspecCloudfrontURL; buildspecCloudfrontURL]))
    ∧ (∀ e, truthy_opt (files env2 !! uri_fsPath loc) = false →
         failure buildspecCloudfrontURL (S (length (requests env2))) = Some e →
         requests env'
         = requests env2 ++ [buildspecCloudfrontURL; buildspecCloudfrontURL;
                             buildspecS3FallbackURL; buildspecS3FallbackURL]
         ∧ (failure buildspecS3FallbackURL (S (S (S (length (requests env2))))) = None →
              tbl !! "buildspec" = Some loc)
         ∧ (∀ e', failure buildspecS3FallbackURL (S (S (S (length (requests env2)))))
                  = Some e' →
              tbl !! "buildspec" = None
              ∧ notices env'
                = notices env2 ++ [CouldNotDownload "buildspec schema from CloudFront" e;
                                   CouldNotDownload "buildspec schema" e']
              ∧ files env' = files env2 ∧ globalState env' = globalState env2)).
Proof.
  intros loc failure.
  destruct (goformationSchemas_returns host lib g env) as (schemas2 & env2 & Hg & Hnone).
  exists schemas2, env2.
  unfold getDefaultSchemas. rewrite bind_eq, Hg.
  unfold buildspecSchemas. fold loc. unfold try_catch. rewrite bind_eq.
  assert (∀ k : string, k ≠ "buildspec" →
            (<["buildspec" := loc]> schemas2 : Schemas) !! k = schemas2 !! k) as Hother.
  { intros k Hk. by rewrite lookup_insert_ne. }
  destruct (truthy_opt (files env2 !! uri_fsPath loc)) eqn:Hc.
  - destruct (updateBuildspecFrom_cached buildspecCloudfrontURL loc env2 Hc) as [Hret Hreq].
    destruct (updateBuildspecFrom host lib buildspecCloudfrontURL loc env2) as [res env3].
    cbn [fst snd] in Hret, Hreq. subst res. cbn [mret Task_ret].
    eexists _, _. split; [done|]. split; [reflexivity|]. split; [exact Hother|].
    split; [|done]. intros _. split; [by rewrite lookup_insert_eq|exact Hreq].
  - destruct (updateBuildspecFrom_uncached buildspecCloudfrontURL loc env2 Hc) as [Hreq Hres].
    fold (failure buildspecCloudfrontURL (S (length (requests env2)))) in Hres.
    destruct (updateBuildspecFrom host lib buildspecCloudfrontURL loc env2) as [res env3].
    cbn [fst snd] in Hreq, Hres.
    destruct (failure buildspecCloudfrontURL (S (length (requests env2)))) as [e|] eqn:Ef.
    + destruct Hres as (-> & Hf & Hgs & Hn).
      rewrite bind_eq. cbn [notice]. rewrite bind_eq.
      set (env3' := mkEnv (globalState env3) (files env3) (requests env3)
                      (notices env3 ++ [CouldNotDownload "buildspec schema from CloudFront" e])).
      assert (truthy_opt (files env3' !! uri_fsPath loc) = false) as Hc'
        by (unfold env3'; cbn [files]; by rewrite Hf).
      destruct (updateBuildspecFrom_uncached buildspecS3FallbackURL loc env3' Hc')
        as [Hreq' Hres'].
      assert (S (length (requests env3')) = S (S (S (length (requests env2))))) as Hlen.
      { unfold env3'. cbn [requests]. rewrite Hreq, length_app. simpl. lia. }
      rewrite Hlen in Hres'.
      fold (failure buildspecS3FallbackURL (S (S (S (length (requests env2)))))) in Hres'.
      assert (requests env3' ++ [buildspecS3FallbackURL; buildspecS3FallbackURL]
              = requests env2 ++ [buildspecCloudfrontURL; buildspecCloudfrontURL;
                                  buildspecS3FallbackURL; buildspecS3FallbackURL]) as Happ.
      { unfold env3'. cbn [requests]. by rewrite Hreq, <- app_assoc. }
      rewrite Happ in Hreq'.
      destruct (updateBuildspecFrom host lib buildspecS3FallbackURL loc env3') as [res' env4].
      cbn [fst snd] in Hreq', Hres'.
      destruct (failure buildspecS3FallbackURL (S (S (S (length (requests env2))))))
        as [e'|] eqn:Ef'.
      * destruct Hres' as (-> & Hf' & Hgs' & Hn').
        rewrite bind_eq. cbn [notice mret Task_ret].
        eexists _, _. split; [done|]. split; [reflexivity|]. split; [done|].
        split; [by intros [?|?]|].
        intros e0 _ [= <-]. cbn [requests notices files globalState].
        split; [exact Hreq'|]. split; [done|].
        intros e0 [= <-]. split; [exact Hnone|].
        rewrite Hn', Hf', Hgs'. unfold env3'. cbn [notices files globalState].
        rewrite Hn, Hf, Hgs, <- app_assoc. done.
      * subst res'. cbn [mret Task_ret].
        eexists _, _. split; [done|]. split; [reflexivity|]. split; [exact Hother|].
        split; [by intros [?|?]|].
        intros e0 _ [= <-]. split; [exact Hreq'|]. split; [|done].
        intros _. by rewrite lookup_insert_eq.
    + subst res. cbn [mret Task_ret].
      eexists _, _. split; [done|]. split; [reflexivity|]. split; [exact Hother|].
      split; [|done]. intros _. split; [by rewrite lookup_insert_eq|by right].
Qed.

End BuildspecFallback.

(** C7 as stated fails: with the three schema files in the cache and no
    request answered, the fetch of the buildspec schema from CloudFront
    fails, and yet the S3 URL is never asked: the update returns on the
    cached file, and the table has the ['buildspec'] entry. *)
Lemma C7_counterexample :
  (∀ n, http host_offline n buildspecCloudfrontURL = None)
  ∧ truthy_opt (files env_all_cached !! uri_fsPath (buildSpecSchemaUri lib0 storage)) = true
  ∧ requests (getDefaultSchemas host_offline lib0 storage env_all_cached).2
    = [goformationManifestURL; buildspecCloudfrontURL]
  ∧ (buildspecS3FallbackURL
       ∉ requests (getDefaultSchemas host_offline lib0 storage env_all_cached).2)
  ∧ notices (getDefaultSchemas host_offline lib0 storage env_all_cached).2 = []
  ∧ ∃ tbl, (getDefaultSchemas host_offline lib0 storage env_all_cached).1 = Ret tbl
           ∧ tbl !! "buildspec" = Some (buildSpecSchemaUri lib0 storage).
Proof.
  split; [done|]. split; [reflexivity|]. split; [reflexivity|]. split.
  - change (requests (getDefaultSchemas host_offline lib0 storage env_all_cached).2)
      with [goformationManifestURL; buildspecCloudfrontURL].
    intros H. apply elem_of_cons in H as [H|H]; [discriminate H|].
    apply list_elem_of_singleton in H. discriminate H.
  - split; [reflexivity|]. eexists. split; reflexivity.
Qed.

(** ** The schema registry of the YAML extension *)

Lemma jsmap_delete_set_absent {V} (k : string) (v : V) (m : list (string * V)) :
  jsmap_has k m = false → jsmap_delete k (jsmap_set k v m) = m.
Proof.
  induction m as [|[k' v'] m IH]; simpl.
  - intros _. by rewrite String.eqb_refl.
  - intros H. apply orb_false_iff in H as [Hk Hm]. rewrite Hk. simpl.
    rewrite Hk. simpl. by rewrite IH.
Qed.

Lemma jsmap_has_delete {V} (k : string) (m : list (string * V)) :
  jsmap_has k (jsmap_delete k m) = false.
Proof.
  induction m as [|[k' v'] m IH]; simpl; [done|].
  destruct (String.eqb k' k) eqn:E; simpl; [done|]. by rewrite E.
Qed.

Section YamlRegistryFacts.

Variable with_scheme : string → Uri → Uri.
Variable aws_scheme : string.

Implicit Types (schemaMap : SchemaMap) (schema : Uri + (unit → Uri)).

(** The schemas of a path after a registration. *)
Lemma registerSchema_lookup path r schema schemaMap :
  truthy r = true →
  registerSchema with_scheme aws_scheme path (Some r) schema schemaMap !! path
  = Some (jsmap_set r (applyScheme with_scheme aws_scheme (evaluate schema))
            (default [] (schemaMap !! path))).
Proof.
  intros Ht. unfold registerSchema. rewrite Ht.
  destruct (schemaMap !! path) as [l|] eqn:E.
  - by rewrite lookup_insert_eq, E.
  - by rewrite !lookup_insert_eq.
Qed.

(** X23: after a registration with a registry name that is not empty, the
    path has a schema.  It is the schema just registered when the path had
    none or when its first registry is the one registering again; otherwise
    it still is the schema of the registry that registered first. *)
Theorem X23_first_registry_wins path r schema schemaMap :
  truthy r = true →
  getSchemas path (registerSchema with_scheme aws_scheme path (Some r) schema schemaMap)
  = Some (uri_toString
            match default [] (schemaMap !! path) with
            | (r0, u0) :: _ =>
                if String.eqb r0 r
                then applyScheme with_scheme aws_scheme (evaluate schema)
                else u0
            | [] => applyScheme with_scheme aws_scheme (evaluate schema)
            end).
Proof.
  intros Ht. unfold getSchemas. rewrite (registerSchema_lookup _ _ _ _ Ht).
  destruct (default [] (schemaMap !! path)) as [|[r0 u0] l]; simpl; [done|].
  by destruct (String.eqb r0 r).
Qed.

(** X24: a registration that is taken back.  When the registry had no
    schema for the path, to register one and then deregister it gives back
    the schemas the path had (no schemas, if the path was not known), and
    every path answers [getSchemas] as before. *)
Theorem X24_register_then_deregister path r schema schemaMap :
  truthy r = true →
  jsmap_has r (default [] (schemaMap !! path)) = false →
  let schemaMap' :=
    deRegisterSchema path (Some r)
      (registerSchema with_scheme aws_scheme path (Some r) schema schemaMap) in
  schemaMap' !! path = Some (default [] (schemaMap !! path))
  ∧ ∀ path', getSchemas path' schemaMap' = getSchemas path' schemaMap.
Proof.
  intros Ht Hno schemaMap'.
  assert (schemaMap' !! path = Some (default [] (schemaMap !! path))) as Hp.
  { unfold schemaMap', deRegisterSchema. rewrite Ht, (registerSchema_lookup _ _ _ _ Ht).
    by rewrite lookup_insert_eq, jsmap_delete_set_absent. }
  split; [exact Hp|]. intros path'. unfold getSchemas.
  destruct (decide (path' = path)) as [->|Hne].
  - rewrite Hp. by destruct (schemaMap !! path).
  - assert (schemaMap' !! path' = schemaMap !! path') as ->; [|done].
    unfold schemaMap', deRegisterSchema. rewrite Ht, (registerSchema_lookup _ _ _ _ Ht).
    rewrite lookup_insert_ne by done.
    unfold registerSchema. rewrite Ht.
    destruct (schemaMap !! path); by rewrite !lookup_insert_ne.
Qed.

(** X25: what the registry operations leave alone.  A registry name that
    is absent or empty makes both operations void; otherwise they change
    the schemas of no path but their own, a deregistration for a path that
    is not known changes nothing, and after a deregistration the registry
    has no schema for the path. *)
Theorem X25_registry_frame path (registry : option string) schema schemaMap :
  (truthy_opt registry = false →
     registerSchema with_scheme aws_scheme path registry schema schemaMap = schemaMap
     ∧ deRegisterSchema path registry schemaMap = schemaMap)
  ∧ (∀ path', path' ≠ path →
       registerSchema with_scheme aws_scheme path registry schema schemaMap !! path'
       = schemaMap !! path'
       ∧ deRegisterSchema path registry schemaMap !! path' = schemaMap !! path')
  ∧ (schemaMap !! path = None → deRegisterSchema path registry schemaMap = schemaMap)
  ∧ (∀ r l, registry = Some r → truthy r = true →
       deRegisterSchema path registry schemaMap !! path = Some l → jsmap_has r l = false).
Proof.
  split; [|split; [|split]].
  - intros Hf. unfold registerSchema, deRegisterSchema.
    destruct registry as [r|]; [|done]. simpl in Hf. by rewrite Hf.
  - intros path' Hne. unfold registerSchema, deRegisterSchema.
    destruct registry as [r|]; [|done]. destruct (truthy r); [|done].
    destruct (schemaMap !! path); by rewrite !lookup_insert_ne.
  - intros Hn. unfold deRegisterSchema. destruct registry as [r|]; [|done].
    destruct (truthy r); [|done]. by rewrite Hn.
  - intros r l -> Ht. unfold deRegisterSchema. rewrite Ht.
    destruct (schemaMap !! path) as [l0|] eqn:E.
    + rewrite lookup_insert_eq. intros [= <-]. apply jsmap_has_delete.
    + by rewrite E.
Qed.

End YamlRegistryFacts.

(** ** addCustomTags *)

(** X26: when the update is accepted, the tags after [addCustomTags] begin
    with the tags there were, hold every CloudFormation tag, and hold nothing
    else; a second call changes nothing; and when no tag was missing the
    setting is left as it is. *)
Theorem X26_addCustomTags_completes_the_tags (cloudFormationTags currentTags : list string) :
  let r := addCustomTags cloudFormationTags None currentTags in
  currentTags `prefix_of` r.1
  ∧ (∀ t, t ∈ cloudFormationTags → t ∈ r.1)
  ∧ (∀ t, t ∈ r.1 → t ∈ currentTags ∨ t ∈ cloudFormationTags)
  ∧ addCustomTags cloudFormationTags None r.1 = (r.1, None)
  ∧ ((∀ t, t ∈ cloudFormationTags → t ∈ currentTags) → r.1 = currentTags).
Proof.
  intros r. unfold r, addCustomTags.
  set (missing := λ cur : list string, List.filter (λ item, negb (bool_decide (item ∈ cur))) cloudFormationTags).
  assert (∀ cur t, t ∈ missing cur ↔ t ∈ cloudFormationTags ∧ t ∉ cur) as Hmiss.
  { intros cur t. unfold missing. rewrite list_elem_of_In, List.filter_In, <- list_elem_of_In.
    rewrite negb_true_iff, bool_decide_eq_false. done. }
  assert (∀ cur, (∀ t, t ∈ cloudFormationTags → t ∈ cur) → missing cur = []) as Hnone.
  { intros cur Hall. destruct (missing cur) as [|t l] eqn:E; [done|].
    assert (t ∈ missing cur) as Ht by (rewrite E; by left).
    apply Hmiss in Ht as [Ht Hn]. by destruct (Hn (Hall t Ht)). }
  fold (missing currentTags).
  assert (∀ t, t ∈ cloudFormationTags → t ∈ currentTags ++ missing currentTags) as Hall.
  { intros t Ht. apply elem_of_app.
    destruct (decide (t ∈ currentTags)); [by left|right; by apply Hmiss]. }
  destruct (bool_decide (0 < length (missing currentTags))) eqn:E; cbn [fst].
  - split; [by apply prefix_app_r|]. split; [exact Hall|]. split; [|split].
    + intros t [Ht|Ht]%elem_of_app; [by left|right; by apply Hmiss in Ht as [? _]].
    + fold (missing (currentTags ++ missing currentTags)).
      by rewrite (Hnone _ Hall).
    + intros Hin. rewrite (Hnone _ Hin) in E. done.
  - apply bool_decide_eq_false in E.
    assert (missing currentTags = []) as Hm
      by (destruct (missing currentTags); [done|simpl in E; lia]).
    split; [done|]. split.
    + intros t Ht. specialize (Hall t Ht). by rewrite Hm, app_nil_r in Hall.
    + split; [by left|]. split; [|done].
      fold (missing currentTags). by rewrite Hm.
Qed.

(** ** makeChildrenNodes *)

Section MakeChildrenNodesFacts.

Context {Node : Type}.
Variable array_sort : (Node → Node → Result Z) → list Node → list Node * option string.
Variable logger_error : string → nat.




End MakeChildrenNodesFacts.

(** ** The properties above at concrete inputs *)

(** A mapping without owner and without schema leaves the table as it is. *)
Lemma X2_witness :
  owner unowned_doc2 = None
  ∧ owned (svc (registerMapping unowned_doc2 None world0)) = owned (svc world0).
Proof.
  split; [reflexivity|].
  apply (X2_no_owner_or_unclaimed_removal_claims_nothing world0 unowned_doc2 None).
  left. reflexivity.
Defined.

(** The removal of [featureA] for a document that nobody has claimed. *)
Lemma X3_witness :
  owned_get (svc world0) byA_removal = None
  ∧ (enqueue byA_removal world0).2 = false
  ∧ registerMapping byA_removal None world0 = world0.
Proof.
  split; [reflexivity|].
  destruct (X3_unclaimed_uri world0 byA_removal None eq_refl) as [Hq Hsame].
  split; [exact Hq|]. apply Hsame; reflexivity.
Defined.

(** [featureA] removes the schema of the document it owns. *)
Lemma X4_witness :
  owned_get (svc world_owned_by_A) byA_removal = Some byA_cfn
  ∧ (enqueue byA_removal world_owned_by_A).2 = true
  ∧ updateQueue (svc (enqueue byA_removal world_owned_by_A).1) = [byA_cfn; byA_removal]
  ∧ owned_get (svc (enqueue byA_removal world_owned_by_A).1) byA_removal = Some byA_removal.
Proof.
  split; [reflexivity|].
  destruct (X4_recorded_owner_is_admitted world_owned_by_A byA_removal byA_cfn eq_refl eq_refl)
    as (Hq & Hpush & Hown).
  split; [exact Hq|]. split; [exact Hpush|exact Hown].
Defined.

(** The drain that a direct call of [processUpdates] starts on two queued
    mappings holds a suffix of the queue. *)
Lemma X7_witness :
  ∃ d, inflight (step ProcessUpdates machine_two) = [d]
       ∧ rest d `suffix_of` updateQueue (svc (world machine_two)).
Proof.
  eexists. split; [reflexivity|].
  destruct (step_batches_shrink ProcessUpdates machine_two
              (mkDrain ByOther table0 [yaml_doc2])) as [(d & Hd & _)|Hs].
  - apply list_elem_of_singleton. reflexivity.
  - apply elem_of_nil in Hd. destruct Hd.
  - exact Hs.
Defined.

(** The removal for [doc1] where [doc1] is mapped. *)
Lemma X11_witness :
  json_isMapped (λ path, path) (inl "/ws/doc1.json") store_mapped = true
  ∧ json_isMapped (λ path, path) (inl "/ws/doc1.json")
      (json_handleUpdate (λ path, path) uri_fsPath byA_removal table0 store_mapped).1 = false.
Proof.
  split; [reflexivity|].
  apply (X11_removal_unmaps (λ path, path) uri_fsPath byA_removal table0 store_mapped eq_refl).
  reflexivity.
Defined.

(** [doc1] mapped and unmapped again, from the empty list of settings. *)
Lemma X12_witness :
  (json_handleUpdate (λ path, path) uri_fsPath byA_removal table0
     (json_handleUpdate (λ path, path) uri_fsPath byA_cfn table0 (mkJsonStore [] false)).1).1
  = (json_handleUpdate (λ path, path) uri_fsPath byA_removal table0 (mkJsonStore [] false)).1.
Proof.
  apply (X12_add_then_remove_is_remove (λ path, path) uri_fsPath byA_cfn byA_removal table0
           (mkJsonStore [] false) (SchemaName "cfn")); reflexivity.
Defined.

(** [doc1] is mapped after its mapping from the empty list of settings. *)
Lemma X13_witness :
  json_isMapped (λ path, path) (inl (uri_fsPath doc1))
    (json_handleUpdate (λ path, path) uri_fsPath byA_cfn table0 (mkJsonStore [] false)).1 = true.
Proof.
  apply (X13_add_maps (λ path, path) uri_fsPath byA_cfn table0 (mkJsonStore [] false)
           (SchemaName "cfn") cfnLocation); [reflexivity|reflexivity|reflexivity|].
  intros i e H. discriminate H.
Defined.

(** Two documents for the [cfn] schema share one entry. *)
Lemma X14_witness :
  json_schemas (dispatch_all (λ path, path) uri_fsPath table0 [byA_cfn; byA_cfn_doc2]
                  (mkJsonStore [] false))
  = [mkSetting (Some ["/ws/doc1.json"; "/ws/doc2.json"]) (Some (uri_toString cfnLocation)) None].
Proof.
  apply (X14_fan_in (λ path, path) uri_fsPath table0 (uri_toString cfnLocation)
           [byA_cfn; byA_cfn_doc2] (mkJsonStore [] false)); [discriminate|].
  intros m Hm. exists (SchemaName "cfn"), cfnLocation.
  apply elem_of_cons in Hm as [->|Hm]; [repeat split|].
  apply list_elem_of_singleton in Hm as ->. repeat split.
Defined.

(** The first update drops the resource file of the earlier session. *)
Lemma X15_witness :
  cleaned store_stale = false
  ∧ cleaned (json_handleUpdate (λ path, path) uri_fsPath byA_cfn table0 store_stale).1 = true.
Proof.
  split; [reflexivity|].
  apply (X15_first_update_cleans_up (λ path, path) uri_fsPath byA_cfn table0 store_stale).
  reflexivity.
Defined.

(** The first download of the [cfn] schema. *)
Lemma X17_witness :
  (updateSchemaFromRemote host_online lib0 cfn_params env0).1 = Ret ()
  ∧ files (updateSchemaFromRemote host_online lib0 cfn_params env0).2
      !! uri_fsPath (destination cfn_params) = Some "{}"
  ∧ globalState (updateSchemaFromRemote host_online lib0 cfn_params env0).2
      !! cacheKey cfn_params = Some "v1".
Proof.
  destruct (X17_download_stores_document_and_version host_online lib0 cfn_params env0)
    as (Hret & Hfile & _ & Hver & _); [left; reflexivity|reflexivity|reflexivity|].
  split; [exact Hret|]. split; [exact Hfile|exact Hver].
Defined.

(** The download of the [cfn] schema when the version cache cannot be
    written: the next call asks for the document again. *)
Lemma X18_witness :
  notices (updateSchemaFromRemote host_readonly lib0 cfn_params env0).2
  = [FailedToUpdateCacheKey "cfn" "read-only"]
  ∧ requests (updateSchemaFromRemote host_readonly lib0 cfn_params
                (updateSchemaFromRemote host_readonly lib0 cfn_params env0).2).2
    = [source_url cfn_params; source_url cfn_params].
Proof.
  destruct (X18_cache_key_failure_is_logged host_readonly lib0 cfn_params env0 "v1" "read-only")
    as (_ & _ & _ & Hnote & Hreq);
    [reflexivity|reflexivity|discriminate|reflexivity|reflexivity|].
  split; [exact Hnote|exact Hreq].
Defined.

(** The second call after the first download of the [cfn] schema. *)
Lemma X19_witness :
  updateSchemaFromRemote host_online lib_braces cfn_params
    (updateSchemaFromRemote host_online lib_braces cfn_params env0).2
  = (Ret (), (updateSchemaFromRemote host_online lib_braces cfn_params env0).2).
Proof.
  apply (X19_second_call_is_cache_hit host_online lib_braces cfn_params env0);
    [intros v; reflexivity|reflexivity|reflexivity].
Defined.

(** Without network and with the three documents in the cache, the table
    is the one of the three locations. *)
Lemma X20_witness :
  (getDefaultSchemas host_offline lib0 storage env_all_cached).1
  = Ret (<["buildspec" := buildSpecSchemaUri lib0 storage]>
           (<["sam" := samSchemaUri lib0 storage]>
              (<["cfn" := cfnSchemaUri lib0 storage]> ∅))).
Proof.
  rewrite (X20_silent_network_uses_cached_schemas host_offline lib0 storage env_all_cached
             "{}" "{}" "{}"); [reflexivity|intros; reflexivity|reflexivity..].
Defined.

(** The entry of the table for [sam] in the same run. *)
Lemma X21_witness :
  ∃ tbl, (getDefaultSchemas host_offline lib0 storage env_all_cached).1 = Ret tbl
         ∧ tbl !! "sam" = Some (samSchemaUri lib0 storage).
Proof.
  eexists. split; [reflexivity|].
  destruct (X21_table_holds_the_three_locations host_offline lib0 storage env_all_cached
              (<["buildspec" := buildSpecSchemaUri lib0 storage]>
                 (<["sam" := samSchemaUri lib0 storage]>
                    (<["cfn" := cfnSchemaUri lib0 storage]> ∅)))
              (getDefaultSchemas host_offline lib0 storage env_all_cached).2
              "sam" (samSchemaUri lib0 storage) eq_refl eq_refl)
    as [[Hk _]|[[_ Hloc]|[Hk _]]]; [discriminate Hk| |discriminate Hk].
  reflexivity.
Defined.

(** The buildspec schema without network and with the document in the
    cache: one request, to the first location. *)
Lemma X22_witness :
  requests (buildspecSchemas host_offline lib0 storage ∅ env_all_cached).2
  = [buildspecCloudfrontURL].
Proof.
  rewrite (X22_cached_buildspec_skips_fallback host_offline lib0 storage ∅ env_all_cached "{}");
    reflexivity.
Defined.

(** The first registration for a template. *)
Lemma X23_witness :
  getSchemas template_path
    (registerSchema with_scheme0 "aws" template_path (Some "cfn") (inl cfnLocation) ∅)
  = Some "aws:///store/cloudformation.schema.json".
Proof.
  rewrite (X23_first_registry_wins with_scheme0 "aws" template_path "cfn" (inl cfnLocation) ∅);
    reflexivity.
Defined.

(** The registration for a template taken back. *)
Lemma X24_witness :
  getSchemas template_path
    (deRegisterSchema template_path (Some "cfn")
       (registerSchema with_scheme0 "aws" template_path (Some "cfn") (inl cfnLocation) ∅))
  = None.
Proof.
  destruct (X24_register_then_deregister with_scheme0 "aws" template_path "cfn"
              (inl cfnLocation) ∅) as [_ Hget]; [reflexivity|reflexivity|].
  rewrite Hget. reflexivity.
Defined.






(** With a comparator that throws, the three children are followed by the
    error node. *)
Example makeChildrenNodes_sort_throws :
  makeChildrenNodes array_sort0 logger0 three_children = [1; 2; 3]
  ∧ makeChildrenNodes array_sort0 logger0 three_children_no_order = [3; 1; 2; 0].
Proof. split; reflexivity. Qed.
